(** * Birdbody: the pagination-and-export pipeline of [bbcore.py]

    A shallow embedding of [TwitterCorpus] (fetcher, exporter,
    orchestrator) and of [BirdbodyGUI.download_tweets], with the
    properties its specification states about them.

    Python integers are [Z]; Python strings are [string], one [ascii]
    per code point below 256; lists are [list].  The platform client,
    the observer channel and the file system are explicit state: every
    method is a function from a [World] to an outcome and a new
    [World]. *)

From Stdlib Require Import ZArith Ascii List Lia.
From stdpp Require Import base gmap sets list strings pretty sorting.

(** ** Data model *)

(** A tweepy [Status]: the four attributes the program reads.
    [created_at] holds [str(tweet.created_at)], the text the csv writer
    puts in the file. *)
Module Status.
Record t := mk {
  id : Z;
  id_str : string;
  created_at : string;
  text : string
}.
End Status.

(** The keyword arguments of one [api.user_timeline] call. *)
Record Request := {
  rq_screen_name : string;
  rq_count : Z;
  rq_max_id : option Z
}.

(** What the platform answers: a page, or the reason of a
    [tweepy.error.TweepError]. *)
Definition Response : Type := list Status.t + string.

Definition Call : Type := Request * Response.

(** [self.api]: the answer to a request may depend on every earlier
    call (rate limits, transient failures). *)
Definition API : Type := list Call -> Request -> Response.

(** The Python exceptions that occur in the modelled code. *)
Inductive exn :=
| TweepError (reason : string)
| IndexError
| OSError (errno : Z)
| TypeError.

(** What reaches the observer: a text, or the exception object that
    [conn.send(e)] ships. *)
Inductive Msg :=
| Text (s : string)
| Exc (e : exn).

(** The two ends of [mp.Pipe()]; the worker is handed [worker_conn]. *)
Inductive Connection := main_conn_end | worker_conn.

(** The world a [TwitterCorpus] method runs in.
    - [calls]: the platform's history, oldest first;
    - [pipe], [stdout]: what was sent on the connection and printed;
    - [dirs], [files]: the directories and the files (path to content)
      of the file system, under the path strings by which the program
      reaches them: the tables answer for a path as it is written, and
      say nothing of the other spellings of the same place (through
      [.], [..] or doubled separators); [faults] lists the paths at
      which the operating system refuses to create a directory or open
      a file (permission denied, invalid path, ...) with the errno it
      reports;
    - [exported]: the arguments of every [user_tweets_to_csv] call. *)
Record World := mkWorld {
  calls : list Call;
  pipe : list Msg;
  stdout : list Msg;
  dirs : gset string;
  files : gmap string string;
  faults : gmap string Z;
  exported : list (string * list Status.t)
}.

Definition set_calls (f : list Call -> list Call) (w : World) : World :=
  mkWorld (f (calls w)) (pipe w) (stdout w) (dirs w) (files w) (faults w)
          (exported w).
Definition set_pipe (f : list Msg -> list Msg) (w : World) : World :=
  mkWorld (calls w) (f (pipe w)) (stdout w) (dirs w) (files w) (faults w)
          (exported w).
Definition set_stdout (f : list Msg -> list Msg) (w : World) : World :=
  mkWorld (calls w) (pipe w) (f (stdout w)) (dirs w) (files w) (faults w)
          (exported w).
Definition set_dirs (f : gset string -> gset string) (w : World) : World :=
  mkWorld (calls w) (pipe w) (stdout w) (f (dirs w)) (files w) (faults w)
          (exported w).
Definition set_files (f : gmap string string -> gmap string string)
    (w : World) : World :=
  mkWorld (calls w) (pipe w) (stdout w) (dirs w) (f (files w)) (faults w)
          (exported w).
Definition set_exported
    (f : list (string * list Status.t) -> list (string * list Status.t))
    (w : World) : World :=
  mkWorld (calls w) (pipe w) (stdout w) (dirs w) (files w) (faults w)
          (f (exported w)).

(** ** The effect monad: state, exceptions, fuel *)

Inductive Outcome (A : Type) :=
| Ret (a : A)
| Raise (e : exn)
| OutOfFuel.
Arguments Ret {A} a.
Arguments Raise {A} e.
Arguments OutOfFuel {A}.

Definition M (A : Type) : Type := World -> Outcome A * World.

#[export] Instance M_ret : MRet M := fun A a w => (Ret a, w).

#[export] Instance M_bind : MBind M := fun A B f m w =>
  match m w with
  | (Ret a, w') => f a w'
  | (Raise e, w') => (Raise e, w')
  | (OutOfFuel, w') => (OutOfFuel, w')
  end.

Definition raise {A} (e : exn) : M A := fun w => (Raise e, w).
Definition out_of_fuel {A} : M A := fun w => (OutOfFuel, w).
Definition modify (f : World -> World) : M unit := fun w => (Ret tt, f w).

(** [try: body except <handler>: ... else: orelse].  The handler
    answers [None] for an exception its [except] clause does not match;
    the [else] clause runs outside the protection of the [try]. *)
Definition try_except_else {A B} (body : M A)
    (handler : exn -> option (M B)) (orelse : A -> M B) : M B :=
  fun w =>
    match body w with
    | (Ret a, w') => orelse a w'
    | (Raise e, w') =>
        match handler e with
        | Some h => h w'
        | None => (Raise e, w')
        end
    | (OutOfFuel, w') => (OutOfFuel, w')
    end.

Definition try_except {A} (body : M A) (handler : exn -> option (M A)) : M A :=
  try_except_else body handler mret.

(** ** The collaborators *)

Definition send (m : Msg) : M unit := modify (set_pipe (fun l => l ++ [m])).
Definition print (m : Msg) : M unit := modify (set_stdout (fun l => l ++ [m])).

(** [if conn: conn.send(msg) else: print(msg)] *)
Definition notify (conn : option Connection) (m : Msg) : M unit :=
  match conn with
  | Some _ => send m
  | None => print m
  end.

Record TwitterCorpus := {
  data_path : string;
  consumer_key : string;
  consumer_secret : string;
  access_key : string;
  access_secret : string;
  api : API
}.

(** [self.api.user_timeline(screen_name=..., count=..., max_id=...)] *)
Definition user_timeline (self : TwitterCorpus) (screen_name : string)
    (count : Z) (max_id : option Z) : M (list Status.t) :=
  fun w =>
    let rq := {| rq_screen_name := screen_name; rq_count := count;
                 rq_max_id := max_id |} in
    let resp := api self (calls w) rq in
    let w' := set_calls (fun l => l ++ [(rq, resp)]) w in
    match resp with
    | inl page => (Ret page, w')
    | inr reason => (Raise (TweepError reason), w')
    end.

(** [l[-1]] *)
Definition index_last {A} (l : list A) : M A :=
  match last l with
  | Some x => mret x
  | None => raise IndexError
  end.

(** ** Fetcher: [get_user_tweets] *)

(** The local variables of [get_user_tweets] inside its [else] clause. *)
Record Locals := {
  new_tweets : list Status.t;
  user_tweets : list Status.t;
  oldest : Z
}.

Definition progress_msg (n : nat) (screen_name : string) : Msg :=
  Text (pretty n +:+ " tweets downloaded for " +:+ screen_name +:+ " so far.").

(** Lines 64-74: the body of the [while]. *)
Definition loop_body (self : TwitterCorpus) (screen_name : string)
    (conn : option Connection) (st : Locals) : M Locals :=
  new_tweets ← user_timeline self screen_name 200 (Some (oldest st));
  let user_tweets := user_tweets st ++ new_tweets in
  t ← index_last user_tweets;
  let oldest := (Status.id t - 1)%Z in
  notify conn (progress_msg (length user_tweets) screen_name);;
  mret {| new_tweets := new_tweets; user_tweets := user_tweets;
          oldest := oldest |}.

(** Lines 62-74: [while len(new_tweets) > 0]. *)
Fixpoint while_loop (fuel : nat) (self : TwitterCorpus) (screen_name : string)
    (conn : option Connection) (st : Locals) : M Locals :=
  if (0 <? length (new_tweets st))%nat then
    match fuel with
    | O => out_of_fuel
    | S fuel' =>
        st' ← loop_body self screen_name conn st;
        while_loop fuel' self screen_name conn st'
    end
  else mret st.

(** Lines 57-74: the [else] clause, entered with the first page. *)
Definition else_clause (fuel : nat) (self : TwitterCorpus)
    (screen_name : string) (conn : option Connection)
    (new_tweets : list Status.t) : M Locals :=
  let user_tweets := [] ++ new_tweets in
  t ← index_last user_tweets;
  let oldest := (Status.id t - 1)%Z in
  while_loop fuel self screen_name conn
    {| new_tweets := new_tweets; user_tweets := user_tweets;
       oldest := oldest |}.

Definition get_user_tweets (fuel : nat) (self : TwitterCorpus)
    (screen_name : string) (conn : option Connection) : M (list Status.t) :=
  try_except_else
    (user_timeline self screen_name 200 None)
    (fun e =>
       match e with
       | TweepError _ => Some (notify conn (Exc e);; mret [])
       | _ => None
       end)
    (fun new_tweets =>
       st ← else_clause fuel self screen_name conn new_tweets;
       mret (user_tweets st)).

(** ** Exporter: [user_tweets_to_csv] *)

Definition sep : ascii := "/"%char.

Definition startswith_sep (s : string) : bool :=
  match s with
  | String c _ => bool_decide (c = sep)
  | EmptyString => false
  end.

Fixpoint endswith_sep (s : string) : bool :=
  match s with
  | EmptyString => false
  | String c EmptyString => bool_decide (c = sep)
  | String _ s' => endswith_sep s'
  end.

(** [os.path.join(a, b)] of [posixpath]: an absolute [b] discards [a]. *)
Definition os_path_join (a b : string) : string :=
  if startswith_sep b then b
  else if bool_decide (a = "") || endswith_sep a then a +:+ b
  else a +:+ String sep b.

(** The directories [os.makedirs p] creates on the way to [p]: the
    non-empty prefixes of [p] that end just before a separator. *)
Fixpoint intermediate_dirs (acc p : string) : list string :=
  match p with
  | EmptyString => []
  | String c p' =>
      (if bool_decide (c = sep) && negb (bool_decide (acc = ""))
          && negb (endswith_sep acc)
       then [acc] else [])
      ++ intermediate_dirs (acc +:+ String c EmptyString) p'
  end.

(** Everything [os.makedirs dn] creates when nothing exists yet. *)
Definition created_dirs (dn : string) : gset string :=
  list_to_set (intermediate_dirs "" dn) ∪ {[ dn ]}.

Definition EEXIST : Z := 17.

(** [os.makedirs(dn)]: [FileExistsError] (errno 17) when the path is
    there already, the operating system's refusal when it has one (a
    file in the way of a parent is such a refusal, stated in [faults]),
    otherwise the directory and its missing parents are created. *)
Definition makedirs (dn : string) : M unit :=
  fun w =>
    if bool_decide (dn ∈ dirs w) || bool_decide (is_Some (files w !! dn))
    then (Raise (OSError EEXIST), w)
    else match faults w !! dn with
         | Some errno => (Raise (OSError errno), w)
         | None =>
             (Ret tt, set_dirs (fun d => d ∪ created_dirs dn) w)
         end.

Definition ENOENT : Z := 2.
Definition ENOTDIR : Z := 20.
Definition EISDIR : Z := 21.

(** ['/' in s] *)
Fixpoint has_sep (s : string) : bool :=
  match s with
  | EmptyString => false
  | String c s' => bool_decide (c = sep) || has_sep s'
  end.

(** [p[:p.rfind('/') + 1]]: the path up to and including its last
    separator. *)
Fixpoint dir_prefix (p : string) : string :=
  match p with
  | EmptyString => EmptyString
  | String c p' => if has_sep p then String c (dir_prefix p') else EmptyString
  end.

(** [s.rstrip('/')] *)
Fixpoint rstrip_sep (s : string) : string :=
  match s with
  | EmptyString => EmptyString
  | String c s' =>
      match rstrip_sep s' with
      | EmptyString =>
          if bool_decide (c = sep) then EmptyString else String c EmptyString
      | r => String c r
      end
  end.

(** [os.path.dirname(p)] of [posixpath]: the directory a path lies in,
    without the separators that end it unless it consists of them. *)
Definition dirname (p : string) : string :=
  let head := dir_prefix p in
  if bool_decide (rstrip_sep head = "") then head else rstrip_sep head.

(** The directory of [fp] is there: it is the working directory (no
    directory part), the root, or a directory of the file system. *)
Definition has_directory (w : World) (fp : string) : bool :=
  bool_decide (rstrip_sep (dirname fp) = "")
  || bool_decide (dirname fp ∈ dirs w).

(** [open(fp, 'w')]: the operating system's refusal when it has one;
    [IsADirectoryError] (errno 21) when the path is a directory;
    [NotADirectoryError] (errno 20) or [FileNotFoundError] (errno 2)
    when the directory the file lies in is a file or is missing
    ([open] creates no directory); otherwise the file is created or
    truncated.  The handle is the path. *)
Definition open_w (fp : string) : M string :=
  fun w =>
    match faults w !! fp with
    | Some errno => (Raise (OSError errno), w)
    | None =>
        if bool_decide (fp ∈ dirs w) then (Raise (OSError EISDIR), w)
        else if has_directory w fp
        then (Ret fp, set_files (fun m => <[ fp := "" ]> m) w)
        else if bool_decide (is_Some (files w !! dirname fp))
        then (Raise (OSError ENOTDIR), w)
        else (Raise (OSError ENOENT), w)
    end.

Definition write (f : string) (data : string) : M unit :=
  modify (set_files (fun m => <[ f := default "" (m !! f) +:+ data ]> m)).

(** The [csv.writer] of the default ('excel') dialect: delimiter [,],
    quote character 34, minimal quoting, quotes doubled, rows ended by
    CR LF. *)
Definition quotechar : ascii := "034"%char.
Definition CR : ascii := "013"%char.
Definition LF : ascii := "010"%char.

Definition csv_special (c : ascii) : bool :=
  bool_decide (c = ","%char) || bool_decide (c = quotechar)
  || bool_decide (c = CR) || bool_decide (c = LF).

Fixpoint string_existsb (p : ascii -> bool) (s : string) : bool :=
  match s with
  | EmptyString => false
  | String c s' => p c || string_existsb p s'
  end.

Fixpoint csv_double_quotes (s : string) : string :=
  match s with
  | EmptyString => EmptyString
  | String c s' =>
      if bool_decide (c = quotechar)
      then String c (String c (csv_double_quotes s'))
      else String c (csv_double_quotes s')
  end.

Definition csv_field (s : string) : string :=
  if string_existsb csv_special s
  then String quotechar (csv_double_quotes s +:+ String quotechar EmptyString)
  else s.

Definition csv_record (row : list string) : string :=
  String.concat "," (map csv_field row) +:+ String CR (String LF EmptyString).

Definition writerow (f : string) (row : list string) : M unit :=
  write f (csv_record row).

Fixpoint writerows (f : string) (rows : list (list string)) : M unit :=
  match rows with
  | [] => mret tt
  | row :: rows' => writerow f row;; writerows f rows'
  end.

Definition header : list string := ["TWEET_ID"; "CREATED_AT"; "TEXT"].

Definition tweet_row (tweet : Status.t) : list string :=
  [Status.id_str tweet; Status.created_at tweet; Status.text tweet].

Definition user_tweets_to_csv (self : TwitterCorpus)
    (user_tweets : list Status.t) (screen_name : string)
    (conn : option Connection) : M unit :=
  modify (set_exported (fun l => l ++ [(screen_name, user_tweets)]));;
  let outtweets := map tweet_row user_tweets in
  let dn := os_path_join (data_path self) "tweets" in
  try_except (makedirs dn)
    (fun e =>
       match e with
       | OSError errno =>
           Some (if bool_decide (errno ≠ 17%Z)
                 then raise TypeError   (* [raise()] *)
                 else mret tt)
       | _ => None
       end);;
  let fp := os_path_join dn (screen_name +:+ "_tweets.csv") in
  f ← open_w fp;
  writerow f header;;
  writerows f outtweets;;
  notify conn (Text ("Saved tweets to " +:+ fp +:+ ".")).

(** ** Orchestrator: [get_multi_user_tweets] *)

(** Lines 32-34: the message that opens an account; nothing is printed
    when there is no connection. *)
Definition announce (conn : option Connection) (sn : string) : M unit :=
  match conn with
  | Some _ => send (Text ("Getting tweets for " +:+ sn +:+ " ..."))
  | None => mret tt
  end.

Fixpoint get_multi_user_tweets (fuel : nat) (self : TwitterCorpus)
    (screen_names : list string) (conn : option Connection) : M unit :=
  match screen_names with
  | [] => mret tt
  | sn :: rest =>
      announce conn sn;;
      user_tweets ← get_user_tweets fuel self sn conn;
      user_tweets_to_csv self user_tweets sn conn;;
      notify conn (Text ("Done with " +:+ sn +:+ "!"));;
      get_multi_user_tweets fuel self rest conn
  end.

(** ** Interface: [BirdbodyGUI.download_tweets] *)

(** [str.isspace] on the code points below 256. *)
Definition isspace (c : ascii) : bool :=
  let n := nat_of_ascii c in
  ((9 <=? n) && (n <=? 13) || (28 <=? n) && (n <=? 32)
   || (n =? 133) || (n =? 160))%nat.

Fixpoint lstrip (s : string) : string :=
  match s with
  | EmptyString => EmptyString
  | String c s' => if isspace c then lstrip s' else s
  end.

Fixpoint rstrip (s : string) : string :=
  match s with
  | EmptyString => EmptyString
  | String c s' =>
      match rstrip s' with
      | EmptyString => if isspace c then EmptyString else String c EmptyString
      | r => String c r
      end
  end.

(** [s.strip()] *)
Definition strip (s : string) : string := rstrip (lstrip s).

(** [s.split("\n")] *)
Fixpoint split_newline (s : string) : list string :=
  match s with
  | EmptyString => [EmptyString]
  | String c s' =>
      if bool_decide (c = LF) then EmptyString :: split_newline s'
      else match split_newline s' with
           | l :: ls => String c l :: ls
           | [] => [String c EmptyString]
           end
  end.

(** Lines 221-228: the screen names read from the text widget. *)
Definition read_screen_names (sn_text : string) : list string :=
  if bool_decide (sn_text ≠ "") then
    foldl (fun screen_names l =>
             let l := strip l in
             if bool_decide (l ≠ "") then screen_names ++ [l]
             else screen_names)
          [] (split_newline sn_text)
  else [].

Inductive ButtonState := normal | disabled.
Inductive Callback := check_download_status.

(** An [mp.Process]: its target's receiver and its arguments. *)
Record Process := {
  target : TwitterCorpus;
  args : list string * Connection
}.

(** The interface state [download_tweets] reads and writes.
    [screen_names_text] is the content of the text widget,
    [started] the processes started so far, [timers] the callbacks
    registered with [root.after]. *)
Record BirdbodyGUI := {
  screen_names_text : string;
  data_path_var : string;
  consumer_key_var : string;
  consumer_secret_var : string;
  access_key_var : string;
  access_secret_var : string;
  download_button : ButtonState;
  main_conn : option Connection;
  download_worker_proc : option Process;
  started : list Process;
  timers : list (nat * Callback)
}.

Section Interface.

(** [tweepy.API(auth)] for the four credentials: the platform's
    authentication collaborator. *)
Variable tweepy_API : string -> string -> string -> string -> API.

(** [TwitterCorpus(...)]: the constructor stores its arguments and
    authenticates. *)
Definition TwitterCorpus_init
    (data_path consumer_key consumer_secret access_key access_secret : string)
    : TwitterCorpus :=
  {| data_path := data_path;
     consumer_key := consumer_key;
     consumer_secret := consumer_secret;
     access_key := access_key;
     access_secret := access_secret;
     api := tweepy_API consumer_key consumer_secret access_key
              access_secret |}.

Definition download_tweets (self : BirdbodyGUI) : BirdbodyGUI :=
  (* [Text.get("0.0", "end")] returns the content and a final newline *)
  let sn_text := screen_names_text self +:+ String LF EmptyString in
  let screen_names := read_screen_names sn_text in
  if bool_decide (screen_names ≠ []) then
    let udp := strip (data_path_var self) in
    let ck := strip (consumer_key_var self) in
    let cs := strip (consumer_secret_var self) in
    let ak := strip (access_key_var self) in
    let acs := strip (access_secret_var self) in
    let corpus := TwitterCorpus_init udp ck cs ak acs in
    let proc := {| target := corpus; args := (screen_names, worker_conn) |} in
    {| screen_names_text := screen_names_text self;
       data_path_var := data_path_var self;
       consumer_key_var := consumer_key_var self;
       consumer_secret_var := consumer_secret_var self;
       access_key_var := access_key_var self;
       access_secret_var := access_secret_var self;
       download_button := disabled;
       main_conn := Some main_conn_end;
       download_worker_proc := Some proc;
       started := started self ++ [proc];
       timers := timers self ++ [(250, check_download_status)] |}
  else self.

End Interface.

(** ** Platforms and worlds to run the code on *)

(** An empty world: no call made, nothing sent, an empty file system
    in which nothing is refused. *)
Definition world0 : World :=
  {| calls := []; pipe := []; stdout := []; dirs := ∅; files := ∅;
     faults := ∅; exported := [] |}.

Definition corpus (data_path : string) (api : API) : TwitterCorpus :=
  {| data_path := data_path; consumer_key := ""; consumer_secret := "";
     access_key := ""; access_secret := ""; api := api |}.

(** A platform that serves each account's timeline (most recent item
    first): the first [count] items whose id is at most [max_id]. *)
Definition timeline_api (timeline : string -> list Status.t) : API :=
  fun _ rq =>
    inl (take (Z.to_nat (rq_count rq))
           (List.filter
              (fun t => match rq_max_id rq with
                        | Some m => (Status.id t <=? m)%Z
                        | None => true
                        end)
              (timeline (rq_screen_name rq)))).

Definition tweet (i : Z) : Status.t :=
  Status.mk i (pretty i) "2020-01-01 00:00:00" ("tweet " +:+ pretty i).

(** [n] items with the ids [n], [n-1], ..., [1]. *)
Fixpoint tweets (n : nat) : list Status.t :=
  match n with
  | O => []
  | S n' => tweet (Z.of_nat n) :: tweets n'
  end.

(** A platform that refuses every request. *)
Definition failing_api (reason : string) : API := fun _ _ => inr reason.

(** A platform that serves one page of [n] items to the first request it
    ever receives and refuses every later one. *)
Definition flaky_api (n : nat) (reason : string) : API :=
  fun log _ =>
    match log with
    | [] => inl (tweets n)
    | _ => inr reason
    end.

(** The first request of a fetch. *)
Definition first_request (screen_name : string) : Request :=
  {| rq_screen_name := screen_name; rq_count := 200; rq_max_id := None |}.

(** The request for the page below the cursor [oldest]. *)
Definition next_request (screen_name : string) (oldest : Z) : Request :=
  {| rq_screen_name := screen_name; rq_count := 200;
     rq_max_id := Some oldest |}.

Definition record_call (c : Call) (w : World) : World :=
  set_calls (fun l => l ++ [c]) w.

(** The world once a refused first request has been reported. *)
Definition after_failed_fetch (sn : string) (conn : option Connection)
    (reason : string) (w : World) : World :=
  snd (notify conn (Exc (TweepError reason))
         (record_call (first_request sn, inr reason) w)).


(** The timelines of two accounts: [alice] has no item, [bob] has five. *)
Definition alice_empty_bob_five (sn : string) : list Status.t :=
  if bool_decide (sn = "bob") then tweets 5 else [].

(** The two steps of [user_tweets_to_csv]: lines 82-86 make sure the
    directory is there, lines 88-96 write the file. *)
Definition ensure_dir (dn : string) : M unit :=
  try_except (makedirs dn)
    (fun e =>
       match e with
       | OSError errno =>
           Some (if bool_decide (errno ≠ 17%Z) then raise TypeError
                 else mret tt)
       | _ => None
       end).

Definition write_csv (fp : string) (outtweets : list (list string))
    (conn : option Connection) : M unit :=
  f ← open_w fp;
  writerow f header;;
  writerows f outtweets;;
  notify conn (Text ("Saved tweets to " +:+ fp +:+ ".")).

Definition log_export (sn : string) (items : list Status.t) (w : World)
    : World :=
  set_exported (fun l => l ++ [(sn, items)]) w.

(** [<output_root>/tweets] and the file of an account in it, as the
    code computes them. *)
Definition output_dir (self : TwitterCorpus) : string :=
  os_path_join (data_path self) "tweets".

Definition output_file (self : TwitterCorpus) (sn : string) : string :=
  os_path_join (output_dir self) (sn +:+ "_tweets.csv").

(** The text of a csv file: the header row, then one row per item. *)
Definition csv_rows (rows : list (list string)) : string :=
  String.concat "" (map csv_record rows).

Definition csv_file (items : list Status.t) : string :=
  csv_record header +:+ csv_rows (map tweet_row items).

(** The state of the file system an export needs: the directory is
    there or can be created, and the file can be opened (no refusal, no
    directory in its place, and it lies in the output directory or in
    another directory that is there). *)
Definition dir_available (w : World) (dn : string) : Prop :=
  dn ∈ dirs w \/ (files w !! dn = None /\ faults w !! dn = None).

Definition file_writable (w : World) (dn fp : string) : Prop :=
  faults w !! fp = None /\ (fp ∉ dirs w ∪ created_dirs dn)
  /\ (dirname fp = dn \/ dirname fp ∈ dirs w).

(** The world after a successful export. *)
Definition after_export (self : TwitterCorpus) (items : list Status.t)
    (sn : string) (conn : option Connection) (w : World) : World :=
  snd (user_tweets_to_csv self items sn conn w).

(** The message that closes an export. *)
Definition saved_msg (fp : string) : Msg :=
  Text ("Saved tweets to " +:+ fp +:+ ".").

(** The directory step has nothing left to do: the path exists, or the
    operating system keeps answering errno 17 for it. *)
Definition settled (w : World) (dn : string) : Prop :=
  dn ∈ dirs w \/ is_Some (files w !! dn) \/ faults w !! dn = Some 17%Z.

(** A file system in which the output directory of [out] cannot be
    created (errno 13, permission denied). *)
Definition world_denied : World :=
  {| calls := []; pipe := []; stdout := []; dirs := ∅; files := ∅;
     faults := {[ "out/tweets" := 13%Z ]}; exported := [] |}.

(** A file system in which a file sits where the output directory of
    [out] should be. *)
Definition world_with_file_in_the_way : World :=
  {| calls := []; pipe := []; stdout := []; dirs := {[ "out" ]};
     files := {[ "out/tweets" := "notes" ]}; faults := ∅; exported := [] |}.

(** [<output_root>/tweets/<account_id>_tweets.csv] as the specification
    writes it: the file name appended to the output directory. *)
Definition spec_output_file (self : TwitterCorpus) (sn : string) : string :=
  output_dir self +:+ String sep (sn +:+ "_tweets.csv").

(** A file system with output directory and an older file for [alice]. *)
Definition world_with_old_file : World :=
  {| calls := []; pipe := []; stdout := [];
     dirs := {[ "out"; "out/tweets" ]};
     files := {[ "out/tweets/alice_tweets.csv" := "stale" ]};
     faults := ∅; exported := [] |}.

(** The account identifiers of an input text in the specification's
    words: one per line, each line trimmed, blank lines ignored. *)
Definition account_identifiers (text : string) : list string :=
  filter (fun l => l ≠ "") (strip <$> split_newline text).

Definition idle_gui (text : string) : BirdbodyGUI :=
  {| screen_names_text := text; data_path_var := "out";
     consumer_key_var := ""; consumer_secret_var := "";
     access_key_var := ""; access_secret_var := "";
     download_button := normal; main_conn := None;
     download_worker_proc := None;
     started := []; timers := [] |}.

(** Two blank lines and a line of spaces and a tab. *)
Definition blank_text : string :=
  String LF (String LF (String " " (String "009" (String " " "")))).

(** Item ids decrease with recency: in a timeline or a page, every item
    has a larger id than the items after it. *)
Definition newer (a b : Status.t) : Prop := (Status.id b < Status.id a)%Z.

Definition descending (l : list Status.t) : Prop := StronglySorted newer l.

(** [ceil(n / d)] *)
Definition ceil_div (n d : nat) : nat := (n + d - 1) / d.

(** The calls one fetch adds to the platform's history, and their
    number. *)
Definition fetch_calls (fuel : nat) (self : TwitterCorpus) (sn : string)
    (conn : option Connection) (w : World) : list Call :=
  drop (length (calls w)) (calls (snd (get_user_tweets fuel self sn conn w))).

Definition requests_made (fuel : nat) (self : TwitterCorpus) (sn : string)
    (conn : option Connection) (w : World) : nat :=
  length (fetch_calls fuel self sn conn w).

#[export] Instance newer_dec : RelDecision newer :=
  fun a b => decide (Status.id b < Status.id a)%Z.

#[export] Instance descending_dec (l : list Status.t) : Decision (descending l) :=
  StronglySorted_dec newer l.

(** The shape of the calls of one fetch: every request asks for 200
    items of the account; the first carries the cursor [cursor], each
    later one the id of the last item of the page before it, less one;
    nothing follows an empty page or a refusal. *)
Fixpoint chained (sn : string) (cursor : option Z) (tr : list Call) : Prop :=
  match tr with
  | [] => True
  | (rq, resp) :: tr' =>
      rq = {| rq_screen_name := sn; rq_count := 200; rq_max_id := cursor |}
      /\ match resp with
         | inl page =>
             match last page with
             | Some t => chained sn (Some (Status.id t - 1)%Z) tr'
             | None => tr' = []
             end
         | inr _ => tr' = []
         end
  end.

(** Two accounts with one item each, ids 5 and 9. *)
Definition one_item_each (sn : string) : list Status.t :=
  if bool_decide (sn = "alice") then [tweet 5] else [tweet 9].

(** ** Further observations on a world *)

(** The file system of a world. *)
Definition disk (w : World) : gset string * gmap string string * gmap string Z :=
  (dirs w, files w, faults w).

(** What the observer has received: the pipe when there is a
    connection, the standard output otherwise. *)
Definition observed (conn : option Connection) (w : World) : list Msg :=
  match conn with
  | Some _ => pipe w
  | None => stdout w
  end.

(** The pages among the answers of a list of calls, in order. *)
Definition pages_of (tr : list Call) : list (list Status.t) :=
  omap (fun c : Call => match c.2 with
                        | inl page => Some page
                        | inr _ => None
                        end) tr.

(** A call answered by a page with at least one item. *)
Definition full_page (c : Call) : Prop :=
  exists page, c.2 = inl page /\ page <> [].

(** What a batch over the identifiers [sns] needs from the file system:
    the output directory is there or can be created, and for each
    identifier (none of which holds a path separator, so that each names
    one file of the output directory) the file can be opened. *)
Definition batch_ready (self : TwitterCorpus) (w : World)
    (sns : list string) : Prop :=
  dir_available w (output_dir self)
  /\ Forall (fun sn => has_sep sn = false
                       /\ faults w !! spec_output_file self sn = None
                       /\ spec_output_file self sn ∉ dirs w) sns.

(** ** Further observations on strings *)

Definition has_newline (s : string) : bool :=
  string_existsb (fun c => bool_decide (c = LF)) s.

(** The string is empty or begins with a character that is no
    whitespace. *)
Definition starts_clean (s : string) : Prop :=
  match s with
  | String c _ => isspace c = false
  | EmptyString => True
  end.

(** Spaces, a name, a tab; an empty line; a second name. *)
Definition two_names_text : string :=
  String " " (String " " ("alice" +:+ String "009"
    (String LF (String LF (" bob" +:+ String LF ""))))).

(** ** Interface: [check_download_status], [update_status],
    [write_to_log] *)

(** [s.replace("T", " ")] *)
Fixpoint replace_T (s : string) : string :=
  match s with
  | EmptyString => EmptyString
  | String c s' =>
      String (if bool_decide (c = "T"%char) then " "%char else c) (replace_T s')
  end.

(** [iso[:19].replace("T", " ")], for [iso] the value of
    [datetime.datetime.now().isoformat()]. *)
Definition timestamp (iso : string) : string :=
  replace_T (String.substring 0 19 iso).

(** ["{} ({})".format(text, now)] *)
Definition stamped (text iso : string) : string :=
  text +:+ " (" +:+ timestamp iso +:+ ")".

(** The interface state the status check works on: the state of
    [download_tweets], the status bar, the log widget, the messages
    waiting in the pipe for [main_conn.recv()], and the processes
    joined so far. *)
Record Monitor := {
  gui : BirdbodyGUI;
  status_var : string;
  status_foreground : option string;
  log_text : string;
  inbox : list Msg;
  joined : list Process
}.

(** What one run of the callback observes of its environment: whether
    the worker is alive, and the clock at the two readings of
    [update_status] and [write_to_log]. *)
Record Tick := {
  alive : bool;
  now_status : string;
  now_log : string
}.

(** How a run of the callback ends: it returns, it waits in [recv()]
    for a message that has not arrived, or it finds no
    [download_worker_proc] attribute. *)
Inductive GuiResult :=
| Returned (m : Monitor)
| Blocked (m : Monitor)
| AttributeError.

Definition set_gui (f : BirdbodyGUI -> BirdbodyGUI) (m : Monitor) : Monitor :=
  {| gui := f (gui m); status_var := status_var m;
     status_foreground := status_foreground m; log_text := log_text m;
     inbox := inbox m; joined := joined m |}.

Definition set_download_button (b : ButtonState) (g : BirdbodyGUI)
    : BirdbodyGUI :=
  {| screen_names_text := screen_names_text g;
     data_path_var := data_path_var g;
     consumer_key_var := consumer_key_var g;
     consumer_secret_var := consumer_secret_var g;
     access_key_var := access_key_var g;
     access_secret_var := access_secret_var g;
     download_button := b;
     main_conn := main_conn g;
     download_worker_proc := download_worker_proc g;
     started := started g;
     timers := timers g |}.

Definition set_timers (f : list (nat * Callback) -> list (nat * Callback))
    (g : BirdbodyGUI) : BirdbodyGUI :=
  {| screen_names_text := screen_names_text g;
     data_path_var := data_path_var g;
     consumer_key_var := consumer_key_var g;
     consumer_secret_var := consumer_secret_var g;
     access_key_var := access_key_var g;
     access_secret_var := access_secret_var g;
     download_button := download_button g;
     main_conn := main_conn g;
     download_worker_proc := download_worker_proc g;
     started := started g;
     timers := f (timers g) |}.

Definition update_status (text : string) (ts : bool) (color : option string)
    (now : string) (m : Monitor) : Monitor :=
  let text := if ts then stamped text now else text in
  {| gui := gui m; status_var := text;
     status_foreground :=
       match color with
       | Some c => if bool_decide (c ≠ "") then Some c else status_foreground m
       | None => status_foreground m
       end;
     log_text := log_text m; inbox := inbox m; joined := joined m |}.

Definition write_to_log (text : string) (ts : bool) (now : string)
    (m : Monitor) : Monitor :=
  let text := if ts then stamped text now else text in
  {| gui := gui m; status_var := status_var m;
     status_foreground := status_foreground m;
     log_text := (log_text m +:+ text) +:+ String LF EmptyString;
     inbox := inbox m; joined := joined m |}.

Definition done_text : string := "Done downloading tweets for all users.".

Section Status.

(** [str(e)] for an exception object received from the worker. *)
Variable str_exn : exn -> string.

(** [str(msg)], as [format] renders a received message. *)
Definition msg_text (msg : Msg) : string :=
  match msg with
  | Text s => s
  | Exc e => str_exn e
  end.

(** [if msg]: a string is true when it is not empty, an exception
    object always. *)
Definition truthy (msg : Msg) : bool :=
  match msg with
  | Text s => bool_decide (s ≠ "")
  | Exc _ => true
  end.

(** Lines 247-262. *)
Definition run_check_download_status (t : Tick) (self : Monitor) : GuiResult :=
  match download_worker_proc (gui self) with
  | None => AttributeError
  | Some proc =>
      if negb (alive t) then
        let self :=
          {| gui := gui self; status_var := status_var self;
             status_foreground := status_foreground self;
             log_text := log_text self; inbox := inbox self;
             joined := joined self ++ [proc] |} in
        let msg := done_text in
        let self := update_status msg true None (now_status t) self in
        let self := write_to_log msg true (now_log t) self in
        Returned (set_gui (set_download_button normal) self)
      else
        match inbox self with
        | [] => Blocked self
        | msg :: rest =>
            let self :=
              {| gui := gui self; status_var := status_var self;
                 status_foreground := status_foreground self;
                 log_text := log_text self; inbox := rest;
                 joined := joined self |} in
            let self :=
              if truthy msg then
                write_to_log (msg_text msg) true (now_log t)
                  (update_status (msg_text msg) true None (now_status t) self)
              else self in
            Returned
              (set_gui (set_timers
                          (fun l => l ++ [(250, check_download_status)]))
                 self)
        end
  end.

(** The event loop fires the oldest registered callback, which leaves
    the queue as it starts; with nothing registered, nothing happens. *)
Definition fire (t : Tick) (m : Monitor) : GuiResult :=
  match timers (gui m) with
  | [] => Returned m
  | (_, check_download_status) :: rest =>
      run_check_download_status t (set_gui (set_timers (fun _ => rest)) m)
  end.

(** The event loop over a sequence of observations; it goes no further
    once a callback has not returned. *)
Fixpoint fire_all (ts : list Tick) (m : Monitor) : GuiResult :=
  match ts with
  | [] => Returned m
  | t :: ts' =>
      match fire t m with
      | Returned m' => fire_all ts' m'
      | r => r
      end
  end.

(** The lines the log gains for the messages received at the
    observations [ts]. *)
Fixpoint log_lines (ts : list Tick) (msgs : list Msg) : string :=
  match ts, msgs with
  | t :: ts', msg :: msgs' =>
      (if truthy msg
       then stamped (msg_text msg) (now_log t) +:+ String LF EmptyString
       else EmptyString)
      +:+ log_lines ts' msgs'
  | _, _ => EmptyString
  end.

End Status.

(** The monitor of an interface in which nothing has been shown yet. *)
Definition monitor0 (g : BirdbodyGUI) (msgs : list Msg) : Monitor :=
  {| gui := g; status_var := ""; status_foreground := None; log_text := "";
     inbox := msgs; joined := [] |}.

(** A status check is pending for a running worker: the state
    [download_tweets] leaves behind. *)
Definition polling (m : Monitor) (proc : Process) : Prop :=
  timers (gui m) = [(250, check_download_status)]
  /\ download_worker_proc (gui m) = Some proc
  /\ download_button (gui m) = disabled.

Definition has_T (s : string) : bool :=
  string_existsb (fun c => bool_decide (c = "T"%char)) s.

(** Python's [str] for the exceptions of the model that can travel
    through the pipe: a [TweepError] prints its reason. *)
Definition str_reason (e : exn) : string :=
  match e with
  | TweepError reason => reason
  | _ => ""
  end.

Definition tick_at (a : bool) (iso : string) : Tick :=
  {| alive := a; now_status := iso; now_log := iso |}.

(** At most one status check is pending, and one is pending only
    while the process attribute is set. *)
Definition wired (m : Monitor) : Prop :=
  timers (gui m) = []
  \/ (timers (gui m) = [(250, check_download_status)]
      /\ is_Some (download_worker_proc (gui m))).

(** Three messages of a worker. *)
Definition three_msgs : list Msg :=
  [Text "Getting tweets for alice ..."; Exc (TweepError "Not authorized.");
   Text "Done with alice!"].

(** What the worker may put in the pipe: a text that is not empty, or a
    [TweepError]. *)
Definition worker_msg (m : Msg) : Prop :=
  match m with
  | Text s => s <> ""
  | Exc e => exists reason, e = TweepError reason
  end.


(** A platform that honours the cursor: the ids it serves are not
    negative and, when a request carries a cursor, not above it. *)
Definition honouring (api : API) : Prop :=
  forall log rq page,
    api log rq = inl page ->
    Forall (fun t => (0 <= Status.id t)%Z) page
    /\ forall m, rq_max_id rq = Some m ->
                 Forall (fun t => (Status.id t <= m)%Z) page.

(** ** Interface: [browse_data_path] *)

Definition set_data_path_var (p : string) (g : BirdbodyGUI) : BirdbodyGUI :=
  {| screen_names_text := screen_names_text g;
     data_path_var := p;
     consumer_key_var := consumer_key_var g;
     consumer_secret_var := consumer_secret_var g;
     access_key_var := access_key_var g;
     access_secret_var := access_secret_var g;
     download_button := download_button g;
     main_conn := main_conn g;
     download_worker_proc := download_worker_proc g;
     started := started g;
     timers := timers g |}.

(** Lines 300-309.  [p] is what the directory dialog returns, the empty
    string when it is cancelled; the field is set before the directory
    is created, so the interface state is returned beside the outcome.
    ([IOError] is [OSError].) *)
Definition browse_data_path (p : string) (self : BirdbodyGUI) (w : World)
    : BirdbodyGUI * (Outcome unit * World) :=
  if bool_decide (p ≠ "") then (set_data_path_var p self, ensure_dir p w)
  else (self, (Ret tt, w)).
(** ** Reasoning about the monad *)

Lemma bind_ret {A B} (m : M A) (f : A -> M B) w a w' :
  m w = (Ret a, w') -> (m ≫= f) w = f a w'.
Proof. intros H. unfold mbind, M_bind. now rewrite H. Qed.

Lemma bind_raise {A B} (m : M A) (f : A -> M B) w e w' :
  m w = (Raise e, w') -> (m ≫= f) w = (Raise e, w').
Proof. intros H. unfold mbind, M_bind. now rewrite H. Qed.

Lemma bind_out_of_fuel {A B} (m : M A) (f : A -> M B) w w' :
  m w = (OutOfFuel, w') -> (m ≫= f) w = (OutOfFuel, w').
Proof. intros H. unfold mbind, M_bind. now rewrite H. Qed.

(** Closes a decidable closed goal by evaluation. *)
Ltac by_compute := apply (bool_decide_unpack _); vm_compute; exact I.

Lemma user_timeline_page self sn count max_id w page :
  api self (calls w)
      {| rq_screen_name := sn; rq_count := count; rq_max_id := max_id |}
    = inl page ->
  user_timeline self sn count max_id w
  = (Ret page,
     record_call ({| rq_screen_name := sn; rq_count := count;
                     rq_max_id := max_id |}, inl page) w).
Proof. intros H. unfold user_timeline. cbn zeta. now rewrite H. Qed.

Lemma user_timeline_error self sn count max_id w reason :
  api self (calls w)
      {| rq_screen_name := sn; rq_count := count; rq_max_id := max_id |}
    = inr reason ->
  user_timeline self sn count max_id w
  = (Raise (TweepError reason),
     record_call ({| rq_screen_name := sn; rq_count := count;
                     rq_max_id := max_id |}, inr reason) w).
Proof. intros H. unfold user_timeline. cbn zeta. now rewrite H. Qed.

Lemma announce_calls conn sn w : calls (snd (announce conn sn w)) = calls w.
Proof. now destruct conn. Qed.

Lemma announce_ret conn sn w : fst (announce conn sn w) = Ret tt.
Proof. now destruct conn. Qed.

(** ** The steps of the fetcher *)

Lemma while_loop_exit fuel self sn conn st w :
  new_tweets st = [] -> while_loop fuel self sn conn st w = (Ret st, w).
Proof. intros H. destruct fuel; cbn [while_loop]; now rewrite H. Qed.

Lemma while_loop_enter fuel self sn conn st w :
  new_tweets st <> [] ->
  while_loop (S fuel) self sn conn st w
  = (st' ← loop_body self sn conn st; while_loop fuel self sn conn st') w.
Proof.
  intros H. cbn [while_loop]. destruct (new_tweets st); [congruence|].
  reflexivity.
Qed.

(** The world after an iteration that fetched [page]. *)
Lemma loop_body_page self sn conn st w page t' :
  api self (calls w) (next_request sn (oldest st)) = inl page ->
  last (user_tweets st ++ page) = Some t' ->
  loop_body self sn conn st w
  = (Ret {| new_tweets := page; user_tweets := user_tweets st ++ page;
            oldest := (Status.id t' - 1)%Z |},
     snd (notify conn (progress_msg (length (user_tweets st ++ page)) sn)
            (record_call (next_request sn (oldest st), inl page) w))).
Proof.
  intros Hp Hl. unfold loop_body.
  rewrite (bind_ret _ _ _ _ _ (user_timeline_page _ _ _ _ _ _ Hp)).
  unfold index_last. rewrite Hl.
  unfold mbind, M_bind, mret, M_ret. now destruct conn.
Qed.

Lemma notify_calls conn m w : calls (snd (notify conn m w)) = calls w.
Proof. now destruct conn. Qed.

Lemma get_user_tweets_first_page fuel self sn conn w page :
  api self (calls w) (first_request sn) = inl page ->
  get_user_tweets fuel self sn conn w
  = (st ← else_clause fuel self sn conn page; mret (user_tweets st))
      (record_call (first_request sn, inl page) w).
Proof.
  intros H. unfold get_user_tweets, try_except_else.
  now rewrite (user_timeline_page _ _ _ _ _ _ H).
Qed.

Lemma loop_body_index_error self sn conn st w page :
  api self (calls w) (next_request sn (oldest st)) = inl page ->
  last (user_tweets st ++ page) = None ->
  loop_body self sn conn st w
  = (Raise IndexError, record_call (next_request sn (oldest st), inl page) w).
Proof.
  intros Hp Hl. unfold loop_body.
  rewrite (bind_ret _ _ _ _ _ (user_timeline_page _ _ _ _ _ _ Hp)).
  unfold index_last. now rewrite Hl.
Qed.

(** ** The fetcher when the first request fails *)

Lemma get_user_tweets_initial_failure fuel self sn conn w reason :
  api self (calls w) (first_request sn) = inr reason ->
  get_user_tweets fuel self sn conn w
  = (Ret [], after_failed_fetch sn conn reason w).
Proof.
  intros H. unfold get_user_tweets, try_except_else, after_failed_fetch.
  rewrite (user_timeline_error _ _ _ _ _ _ H).
  now destruct conn.
Qed.

Lemma batch_initial_failure fuel self sn rest conn w reason :
  api self (calls w) (first_request sn) = inr reason ->
  get_multi_user_tweets fuel self (sn :: rest) conn w
  = (user_tweets_to_csv self [] sn conn;;
     notify conn (Text ("Done with " +:+ sn +:+ "!"));;
     get_multi_user_tweets fuel self rest conn)
      (after_failed_fetch sn conn reason (snd (announce conn sn w))).
Proof.
  intros H. cbn [get_multi_user_tweets].
  pose proof (announce_ret conn sn w) as Ha.
  pose proof (announce_calls conn sn w) as Hc.
  destruct (announce conn sn w) as [o wa] eqn:E. cbn in Ha, Hc. subst o.
  rewrite (bind_ret _ _ _ _ _ E).
  rewrite <- Hc in H.
  now rewrite (bind_ret _ _ _ _ _
                 (get_user_tweets_initial_failure fuel self sn conn wa reason H)).
Qed.

(** C8: when the first page request of an account is refused, the fetch
    returns the empty list whatever the fuel, the platform has been
    called exactly once more (no retry), the exception has been handed
    to the observer, and the batch goes on with the export of the empty
    list, the closing message and the remaining accounts. *)
Theorem initial_failure_is_reported fuel self sn rest conn w reason :
  api self (calls w) (first_request sn) = inr reason ->
  let w1 := after_failed_fetch sn conn reason w in
  get_user_tweets fuel self sn conn w = (Ret [], w1)
  /\ calls w1 = calls w ++ [(first_request sn, inr reason)]
  /\ match conn with
     | Some _ => pipe w1 = pipe w ++ [Exc (TweepError reason)]
     | None => stdout w1 = stdout w ++ [Exc (TweepError reason)]
     end
  /\ get_multi_user_tweets fuel self (sn :: rest) conn w
     = (user_tweets_to_csv self [] sn conn;;
        notify conn (Text ("Done with " +:+ sn +:+ "!"));;
        get_multi_user_tweets fuel self rest conn)
         (after_failed_fetch sn conn reason (snd (announce conn sn w))).
Proof.
  intros H w1. repeat split.
  - now apply get_user_tweets_initial_failure.
  - now destruct conn.
  - now destruct conn.
  - now apply batch_initial_failure.
Qed.

Lemma initial_failure_is_reported_witness :
  get_user_tweets 0 (corpus "out" (failing_api "Not authorized.")) "alice"
    (Some worker_conn) world0
  = (Ret [], after_failed_fetch "alice" (Some worker_conn) "Not authorized."
               world0).
Proof.
  refine (proj1 (initial_failure_is_reported 0
            (corpus "out" (failing_api "Not authorized.")) "alice" ["bob"]
            (Some worker_conn) world0 "Not authorized." _)).
  reflexivity.
Defined.

(** ** The fetcher when the first page is empty *)

Lemma get_user_tweets_empty_first_page fuel self sn conn w :
  api self (calls w) (first_request sn) = inl [] ->
  get_user_tweets fuel self sn conn w
  = (Raise IndexError, record_call (first_request sn, inl []) w).
Proof.
  intros H. unfold get_user_tweets, try_except_else.
  now rewrite (user_timeline_page _ _ _ _ _ _ H).
Qed.

(** C1: on an account whose first page is empty the fetch does not
    return the empty list: after its single request, line 60 indexes the
    last element of the empty accumulator and the call ends in an
    [IndexError]; nothing is reported to the observer. *)
Theorem empty_first_page_raises_IndexError :
  let r := get_user_tweets 5 (corpus "out" (timeline_api (fun _ => [])))
             "alice" (Some worker_conn) world0 in
  fst r = Raise IndexError
  /\ calls (snd r) = [(first_request "alice", inl [])]
  /\ pipe (snd r) = [].
Proof.
  cbv zeta.
  rewrite (get_user_tweets_empty_first_page 5
             (corpus "out" (timeline_api (fun _ => []))) "alice"
             (Some worker_conn) world0 eq_refl).
  repeat split.
Qed.

(** ** The fetcher when a later request fails *)

Lemma loop_body_error self sn conn st w reason :
  api self (calls w) (next_request sn (oldest st)) = inr reason ->
  loop_body self sn conn st w
  = (Raise (TweepError reason),
     record_call (next_request sn (oldest st), inr reason) w).
Proof.
  intros H. unfold loop_body.
  apply bind_raise. now apply user_timeline_error.
Qed.

Lemma while_loop_error fuel self sn conn st w reason :
  new_tweets st <> [] ->
  api self (calls w) (next_request sn (oldest st)) = inr reason ->
  while_loop (S fuel) self sn conn st w
  = (Raise (TweepError reason),
     record_call (next_request sn (oldest st), inr reason) w).
Proof.
  intros Hne H. cbn [while_loop].
  destruct (new_tweets st) as [|t l] eqn:E; [congruence|].
  cbn [length Nat.ltb Nat.leb].
  apply bind_raise. now apply loop_body_error.
Qed.

(** C2: a request refused inside the pagination loop is not caught.
    With accounts [alice] and [bob], where the platform serves one item
    to the first request and refuses the second, the [TweepError] leaves
    [get_multi_user_tweets]: nothing is exported (the item already
    fetched for [alice] is lost), the observer receives no error
    message, and [bob] is never requested. *)
Theorem loop_failure_aborts_batch :
  let r := get_multi_user_tweets 5
             (corpus "out" (flaky_api 1 "Rate limit exceeded"))
             ["alice"; "bob"] (Some worker_conn) world0 in
  fst r = Raise (TweepError "Rate limit exceeded")
  /\ exported (snd r) = []
  /\ files (snd r) = ∅
  /\ pipe (snd r) = [Text "Getting tweets for alice ..."]
  /\ calls (snd r)
     = [(first_request "alice", inl (tweets 1));
        (next_request "alice" 0, inr "Rate limit exceeded")].
Proof. vm_compute. repeat split. Qed.

(** C5: with accounts [alice] (no item) and [bob] (five items) the
    orchestrator stops in the fetch of [alice] with an [IndexError]: the
    exporter is invoked for neither identifier and [bob] is never
    requested. *)
Theorem empty_account_aborts_batch :
  let r := get_multi_user_tweets 5
             (corpus "out" (timeline_api alice_empty_bob_five))
             ["alice"; "bob"] (Some worker_conn) world0 in
  fst r = Raise IndexError
  /\ exported (snd r) = []
  /\ calls (snd r) = [(first_request "alice", inl [])].
Proof. vm_compute. repeat split. Qed.

(** ** The exporter *)

Lemma string_app_cons (c : ascii) (s t : string) :
  String c s +:+ t = String c (s +:+ t).
Proof. reflexivity. Qed.

Lemma string_app_nil_r (s : string) : s +:+ "" = s.
Proof.
  induction s as [|c s IH]; [reflexivity|].
  now rewrite string_app_cons, IH.
Qed.

Lemma string_app_assoc (a b c : string) : (a +:+ b) +:+ c = a +:+ (b +:+ c).
Proof.
  induction a as [|x a IH]; [reflexivity|].
  now rewrite !string_app_cons, IH.
Qed.

Lemma user_tweets_to_csv_steps self items sn conn w :
  user_tweets_to_csv self items sn conn w
  = (ensure_dir (output_dir self);;
     write_csv (output_file self sn) (map tweet_row items) conn)
      (log_export sn items w).
Proof. reflexivity. Qed.

Lemma makedirs_exists dn w :
  dn ∈ dirs w -> makedirs dn w = (Raise (OSError EEXIST), w).
Proof.
  intros H. unfold makedirs.
  now rewrite (bool_decide_eq_true_2 _ H).
Qed.

Lemma ensure_dir_exists dn w : dn ∈ dirs w -> ensure_dir dn w = (Ret tt, w).
Proof.
  intros H. unfold ensure_dir, try_except, try_except_else.
  now rewrite (makedirs_exists _ _ H).
Qed.

Lemma makedirs_fresh dn w :
  dn ∉ dirs w -> files w !! dn = None ->
  makedirs dn w
  = match faults w !! dn with
    | Some errno => (Raise (OSError errno), w)
    | None => (Ret tt, set_dirs (fun d => d ∪ created_dirs dn) w)
    end.
Proof.
  intros Hd Hf. unfold makedirs.
  rewrite (bool_decide_eq_false_2 _ Hd).
  rewrite bool_decide_eq_false_2; [reflexivity|].
  rewrite Hf. now intros [x Hx].
Qed.

Lemma ensure_dir_available dn w :
  dir_available w dn ->
  exists w', ensure_dir dn w = (Ret tt, w')
             /\ dn ∈ dirs w' /\ dirs w ⊆ dirs w'
             /\ dirs w' ⊆ dirs w ∪ created_dirs dn
             /\ files w' = files w /\ faults w' = faults w
             /\ calls w' = calls w /\ exported w' = exported w
             /\ pipe w' = pipe w /\ stdout w' = stdout w.
Proof.
  intros [H | [Hf Hq]].
  - exists w. rewrite (ensure_dir_exists _ _ H). repeat split; set_solver.
  - destruct (decide (dn ∈ dirs w)) as [H | H].
    + exists w. rewrite (ensure_dir_exists _ _ H). repeat split; set_solver.
    + exists (set_dirs (fun d => d ∪ created_dirs dn) w).
      unfold ensure_dir, try_except, try_except_else.
      rewrite (makedirs_fresh _ _ H Hf), Hq.
      repeat split; cbn; unfold created_dirs; set_solver.
Qed.

Lemma ensure_dir_fatal dn w errno :
  dn ∉ dirs w -> files w !! dn = None ->
  faults w !! dn = Some errno -> errno <> 17%Z ->
  ensure_dir dn w = (Raise TypeError, w).
Proof.
  intros Hd Hf Hq Hne. unfold ensure_dir, try_except, try_except_else.
  rewrite (makedirs_fresh _ _ Hd Hf), Hq.
  now rewrite (bool_decide_eq_true_2 _ Hne).
Qed.

Lemma world_eta w :
  mkWorld (calls w) (pipe w) (stdout w) (dirs w) (files w) (faults w)
          (exported w) = w.
Proof. now destruct w. Qed.

Lemma writerows_appends f rows w c :
  files w !! f = Some c ->
  writerows f rows w
  = (Ret tt, set_files (fun m => <[ f := c +:+ csv_rows rows ]> m) w).
Proof.
  revert w c. induction rows as [|row rows IH]; intros w c Hc.
  - cbn. unfold set_files. rewrite string_app_nil_r, (insert_id _ _ _ Hc).
    now rewrite world_eta.
  - cbn [writerows]. unfold writerow, write, modify.
    unfold mbind, M_bind.
    rewrite (IH _ (c +:+ csv_record row)).
    + unfold set_files. cbn. rewrite Hc. cbn.
      rewrite insert_insert_eq.
      unfold csv_rows. cbn [map String.concat].
      f_equal. f_equal. f_equal.
      destruct rows as [|r rs]; cbn [map String.concat].
      * now rewrite string_app_nil_r.
      * now rewrite string_app_assoc.
    + cbn. rewrite Hc. cbn. apply lookup_insert_eq.
Qed.

Lemma open_w_cases fp w :
  (exists errno, open_w fp w = (Raise (OSError errno), w))
  \/ (faults w !! fp = None /\ (fp ∉ dirs w) /\ has_directory w fp = true
      /\ open_w fp w = (Ret fp, set_files (fun m => <[ fp := "" ]> m) w)).
Proof.
  unfold open_w.
  destruct (faults w !! fp) as [errno|]; [left; now exists errno|].
  destruct (decide (fp ∈ dirs w)) as [Hd | Hd].
  { rewrite (bool_decide_eq_true_2 _ Hd). left. now exists EISDIR. }
  rewrite (bool_decide_eq_false_2 _ Hd).
  destruct (has_directory w fp).
  - right. now repeat split.
  - left. destruct (bool_decide (is_Some (files w !! dirname fp)));
      [now exists ENOTDIR | now exists ENOENT].
Qed.

Lemma open_w_ok fp w :
  faults w !! fp = None -> fp ∉ dirs w -> has_directory w fp = true ->
  open_w fp w = (Ret fp, set_files (fun m => <[ fp := "" ]> m) w).
Proof.
  intros Hq Hd Hp. unfold open_w.
  now rewrite Hq, (bool_decide_eq_false_2 _ Hd), Hp.
Qed.

Lemma write_csv_ok fp rows conn w :
  faults w !! fp = None -> fp ∉ dirs w -> has_directory w fp = true ->
  write_csv fp rows conn w
  = (Ret tt,
     snd (notify conn (saved_msg fp)
            (set_files
               (fun m => <[ fp := csv_record header +:+ csv_rows rows ]> m)
               w))).
Proof.
  intros Hq Hd Hp. unfold write_csv.
  pose proof (open_w_ok fp w Hq Hd Hp) as Ho.
  rewrite (bind_ret _ _ _ _ _ Ho).
  unfold writerow at 1, write, modify. unfold mbind at 1, M_bind at 1.
  erewrite bind_ret.
  2:{ apply writerows_appends with (c := csv_record header).
      cbn. now rewrite !lookup_insert_eq. }
  unfold set_files; cbn. rewrite !insert_insert_eq.
  destruct conn; reflexivity.
Qed.

Lemma write_csv_cases fp rows conn w :
  (exists e, write_csv fp rows conn w = (Raise e, w))
  \/ write_csv fp rows conn w
     = (Ret tt,
        snd (notify conn (saved_msg fp)
               (set_files
                  (fun m => <[ fp := csv_record header +:+ csv_rows rows ]> m)
                  w))).
Proof.
  destruct (open_w_cases fp w) as [[errno Ho] | (Hq & Hd & Hp & _)].
  - left. exists (OSError errno). unfold write_csv.
    now rewrite (bind_raise _ _ _ _ _ Ho).
  - right. now apply write_csv_ok.
Qed.

Lemma user_tweets_to_csv_ok self items sn conn w :
  dir_available w (output_dir self) ->
  file_writable w (output_dir self) (output_file self sn) ->
  let w' := after_export self items sn conn w in
  user_tweets_to_csv self items sn conn w = (Ret tt, w')
  /\ exported w' = exported w ++ [(sn, items)]
  /\ output_dir self ∈ dirs w'
  /\ files w' = <[ output_file self sn := csv_file items ]> (files w)
  /\ calls w' = calls w
  /\ faults w' = faults w
  /\ match conn with
     | Some _ => pipe w' = pipe w ++ [saved_msg (output_file self sn)]
                 /\ stdout w' = stdout w
     | None => stdout w' = stdout w ++ [saved_msg (output_file self sn)]
               /\ pipe w' = pipe w
     end.
Proof.
  intros Hdir (Hq & Hnd & Hpar) w'. subst w'. unfold after_export.
  rewrite user_tweets_to_csv_steps.
  destruct (ensure_dir_available (output_dir self) (log_export sn items w))
    as (w1 & He & Hin & Hsub & Hsup & Hf & Hfa & Hc & Hex & Hp & Hs).
  { exact Hdir. }
  rewrite (bind_ret _ _ _ _ _ He).
  rewrite write_csv_ok.
  2:{ now rewrite Hfa. }
  2:{ intros Hin'. apply Hnd. apply Hsup in Hin'. exact Hin'. }
  2:{ unfold has_directory. apply orb_true_iff. right.
      apply bool_decide_eq_true_2.
      destruct Hpar as [-> | Hpar]; [exact Hin | exact (Hsub _ Hpar)]. }
  split; [reflexivity|].
  destruct conn; cbn; rewrite ?Hex, ?Hf, ?Hc, ?Hfa, ?Hp, ?Hs;
    repeat split; try reflexivity; exact Hin.
Qed.

Lemma ensure_dir_settled dn w : settled w dn -> ensure_dir dn w = (Ret tt, w).
Proof.
  intros H. unfold ensure_dir, try_except, try_except_else, makedirs.
  destruct (decide (dn ∈ dirs w)) as [Hd | Hd].
  { now rewrite (bool_decide_eq_true_2 _ Hd). }
  rewrite (bool_decide_eq_false_2 _ Hd).
  destruct (decide (is_Some (files w !! dn))) as [Hf | Hf].
  { now rewrite (bool_decide_eq_true_2 _ Hf). }
  rewrite (bool_decide_eq_false_2 _ Hf).
  destruct H as [H | [H | H]]; [contradiction | contradiction |].
  now rewrite H.
Qed.

Lemma ensure_dir_ret dn w w' :
  ensure_dir dn w = (Ret tt, w') ->
  settled w' dn /\ files w' = files w /\ faults w' = faults w.
Proof.
  unfold ensure_dir, try_except, try_except_else, makedirs.
  destruct (decide (dn ∈ dirs w)) as [Hd | Hd].
  { rewrite (bool_decide_eq_true_2 _ Hd). cbn. intros [= <-].
    repeat split. now left. }
  rewrite (bool_decide_eq_false_2 _ Hd).
  destruct (decide (is_Some (files w !! dn))) as [Hf | Hf].
  { rewrite (bool_decide_eq_true_2 _ Hf). cbn. intros [= <-].
    repeat split. right. now left. }
  rewrite (bool_decide_eq_false_2 _ Hf). cbn.
  destruct (faults w !! dn) as [errno|] eqn:Hq.
  - destruct (decide (errno = 17%Z)) as [-> | Hne].
    + cbn. intros [= <-]. repeat split. right. now right.
    + rewrite (bool_decide_eq_true_2 _ Hne). discriminate.
  - intros [= <-]. repeat split. left. cbn. unfold created_dirs. set_solver.
Qed.

Lemma write_csv_keeps_settled fp rows conn w dn :
  settled w dn -> settled (snd (write_csv fp rows conn w)) dn.
Proof.
  intros H.
  destruct (write_csv_cases fp rows conn w) as [[e ->] | ->]; [exact H|].
  destruct H as [H | [H | H]].
  - left. now destruct conn.
  - right. left. destruct conn; cbn;
      (destruct (decide (fp = dn)) as [-> | Hne];
       [rewrite lookup_insert_eq; eauto | now rewrite lookup_insert_ne]).
  - right. right. now destruct conn.
Qed.

(** The directory step is idempotent.  When the output directory
    exists, the export is exactly its file-writing part: the errno 17 of
    [os.makedirs] is swallowed.  After an export that returned, the
    directory step of any further export for the same corpus changes
    nothing and does not raise. *)
Lemma directory_step_idempotent self items sn conn w :
  (output_dir self ∈ dirs w ->
   user_tweets_to_csv self items sn conn w
   = write_csv (output_file self sn) (map tweet_row items) conn
       (log_export sn items w))
  /\ (fst (user_tweets_to_csv self items sn conn w) = Ret tt ->
      forall items' sn' conn',
        let w1 := log_export sn' items' (after_export self items sn conn w) in
        ensure_dir (output_dir self) w1 = (Ret tt, w1)
        /\ user_tweets_to_csv self items' sn' conn'
             (after_export self items sn conn w)
           = write_csv (output_file self sn') (map tweet_row items') conn' w1).
Proof.
  split.
  - intros Hd. rewrite user_tweets_to_csv_steps.
    now rewrite (bind_ret _ _ _ _ _
                   (ensure_dir_exists _ (log_export sn items w) Hd)).
  - intros Hret items' sn' conn' w1.
    assert (Hs : settled w1 (output_dir self)).
    { subst w1. unfold after_export in *.
      rewrite user_tweets_to_csv_steps in *.
      unfold mbind, M_bind in *.
      destruct (ensure_dir (output_dir self) (log_export sn items w))
        as [[[]| |] w0] eqn:He; try discriminate.
      apply ensure_dir_ret in He as (Hs & _ & _).
      pose proof (write_csv_keeps_settled (output_file self sn)
                    (map tweet_row items) conn w0 _ Hs) as Hk.
      destruct Hk as [H | [H | H]]; [left | right; left | right; right];
        exact H. }
    pose proof (ensure_dir_settled _ _ Hs) as He.
    split; [exact He|].
    rewrite user_tweets_to_csv_steps. fold w1.
    now rewrite (bind_ret _ _ _ _ _ He).
Qed.

Lemma makedirs_raise dn w e w' :
  makedirs dn w = (Raise e, w') -> w' = w.
Proof.
  unfold makedirs.
  destruct (bool_decide (dn ∈ dirs w) || bool_decide (is_Some (files w !! dn)));
    [now intros [= _ <-]|].
  destruct (faults w !! dn); [now intros [= _ <-] | discriminate].
Qed.

(** C6: a refusal of [os.makedirs] is not propagated.  Whenever
    [os.makedirs] raises an [OSError] whose errno is not 17 (permission
    denied, invalid path), the handler reaches [raise()]: the export
    ends in a [TypeError], before any file is opened, and the [OSError]
    with its errno is not what the caller receives. *)
Theorem directory_refusal_is_not_propagated self items sn conn w errno :
  fst (makedirs (output_dir self) (log_export sn items w))
  = Raise (OSError errno) ->
  errno <> 17%Z ->
  user_tweets_to_csv self items sn conn w
  = (Raise TypeError, log_export sn items w)
  /\ fst (user_tweets_to_csv self items sn conn w) <> Raise (OSError errno).
Proof.
  intros Hmk Hne.
  assert (Hrun : user_tweets_to_csv self items sn conn w
                 = (Raise TypeError, log_export sn items w)).
  { rewrite user_tweets_to_csv_steps. apply bind_raise.
    unfold ensure_dir, try_except, try_except_else.
    destruct (makedirs (output_dir self) (log_export sn items w))
      as [o w1] eqn:E. cbn [fst] in Hmk. subst o.
    apply makedirs_raise in E as ->.
    now rewrite (bool_decide_eq_true_2 _ Hne). }
  split; [exact Hrun|]. now rewrite Hrun.
Qed.

Lemma directory_refusal_is_not_propagated_witness :
  fst (makedirs "out/tweets" (log_export "alice" (tweets 2) world_denied))
  = Raise (OSError 13)
  /\ user_tweets_to_csv (corpus "out" (failing_api "")) (tweets 2) "alice"
       None world_denied
     = (Raise TypeError, log_export "alice" (tweets 2) world_denied).
Proof.
  split; [vm_compute; reflexivity|].
  refine (proj1 (directory_refusal_is_not_propagated
                   (corpus "out" (failing_api "")) (tweets 2) "alice" None
                   world_denied 13%Z _ _)).
  - vm_compute. reflexivity.
  - lia.
Defined.

(** *** Where the file is written *)

Lemma string_length_app (a b : string) :
  String.length (a +:+ b) = String.length a + String.length b.
Proof.
  induction a as [|c a IH]; [reflexivity|].
  rewrite string_app_cons. cbn. now rewrite IH.
Qed.

Lemma endswith_sep_app (a b : string) :
  b <> "" -> endswith_sep (a +:+ b) = endswith_sep b.
Proof.
  intros Hb. induction a as [|c a IH]; [reflexivity|].
  rewrite string_app_cons. cbn [endswith_sep].
  destruct (a +:+ b) eqn:E.
  - destruct a, b; try discriminate. congruence.
  - exact IH.
Qed.

Lemma os_path_join_relative (a b : string) :
  startswith_sep b = false ->
  os_path_join a b
  = if bool_decide (a = "") || endswith_sep a then a +:+ b
    else a +:+ String sep b.
Proof. intros H. unfold os_path_join. now rewrite H. Qed.

Lemma output_dir_shape self :
  output_dir self <> "" /\ endswith_sep (output_dir self) = false.
Proof.
  unfold output_dir. rewrite os_path_join_relative by reflexivity.
  destruct (bool_decide (data_path self = "") || endswith_sep (data_path self)).
  - split.
    + intros H. apply (f_equal String.length) in H.
      rewrite string_length_app in H. cbn in H. lia.
    + now rewrite endswith_sep_app.
  - split.
    + intros H. apply (f_equal String.length) in H.
      rewrite string_length_app in H. cbn in H. lia.
    + now rewrite endswith_sep_app.
Qed.

Lemma output_file_relative self sn :
  startswith_sep sn = false -> output_file self sn = spec_output_file self sn.
Proof.
  intros H. unfold output_file, spec_output_file.
  destruct (output_dir_shape self) as [Hne Hend].
  rewrite os_path_join_relative.
  - rewrite Hend, (bool_decide_eq_false_2 _ Hne). reflexivity.
  - destruct sn; [reflexivity | exact H].
Qed.

Lemma intermediate_dirs_length acc p x :
  x ∈ intermediate_dirs acc p ->
  String.length x < String.length acc + String.length p.
Proof.
  revert acc. induction p as [|c p IH]; intros acc Hx.
  - cbn in Hx. now apply elem_of_nil in Hx.
  - cbn [intermediate_dirs] in Hx. apply elem_of_app in Hx as [Hx | Hx].
    + destruct (bool_decide (c = sep) && negb (bool_decide (acc = ""))
                && negb (endswith_sep acc)).
      * apply list_elem_of_singleton in Hx as ->. cbn. lia.
      * now apply elem_of_nil in Hx.
    + apply IH in Hx. rewrite string_length_app in Hx. cbn in *. lia.
Qed.

Lemma created_dirs_length dn x :
  x ∈ created_dirs dn -> String.length x <= String.length dn.
Proof.
  unfold created_dirs. rewrite elem_of_union, elem_of_list_to_set.
  intros [Hx | Hx].
  - apply intermediate_dirs_length in Hx. cbn in Hx. lia.
  - apply elem_of_singleton in Hx as ->. lia.
Qed.

Lemma spec_output_file_not_created self sn :
  spec_output_file self sn ∉ created_dirs (output_dir self).
Proof.
  intros H. apply created_dirs_length in H.
  unfold spec_output_file in H. rewrite string_length_app in H.
  cbn in H. lia.
Qed.

(** *** The directory a file lies in *)

Lemma has_sep_app (a b : string) :
  has_sep (a +:+ b) = has_sep a || has_sep b.
Proof.
  induction a as [|c a IH]; [reflexivity|].
  rewrite string_app_cons. cbn [has_sep]. rewrite IH. apply orb_assoc.
Qed.

Lemma has_sep_startswith (s : string) :
  has_sep s = false -> startswith_sep s = false.
Proof.
  destruct s as [|c s]; [reflexivity|]. cbn.
  now intros [H _]%orb_false_iff.
Qed.

Lemma dir_prefix_no_sep (s : string) : has_sep s = false -> dir_prefix s = "".
Proof. destruct s as [|c s]; [reflexivity|]. cbn [dir_prefix]. now intros ->. Qed.

Lemma dir_prefix_app_sep (a b : string) :
  dir_prefix (a +:+ String sep b) = a +:+ String sep (dir_prefix b).
Proof.
  induction a as [|c a IH].
  - change (dir_prefix (String sep b) = String sep (dir_prefix b)).
    cbn [dir_prefix has_sep].
    now rewrite (bool_decide_eq_true_2 (sep = sep) eq_refl).
  - rewrite !string_app_cons. cbn [dir_prefix has_sep].
    rewrite has_sep_app. cbn [has_sep].
    rewrite (bool_decide_eq_true_2 (sep = sep) eq_refl).
    rewrite orb_true_l, !orb_true_r. now rewrite IH.
Qed.

Lemma rstrip_sep_app_sep (a : string) :
  rstrip_sep (a +:+ String sep "") = rstrip_sep a.
Proof.
  induction a as [|c a IH].
  - reflexivity.
  - rewrite string_app_cons. cbn [rstrip_sep]. now rewrite IH.
Qed.

Lemma rstrip_sep_id (a : string) : endswith_sep a = false -> rstrip_sep a = a.
Proof.
  induction a as [|c a IH]; [reflexivity|].
  cbn [endswith_sep rstrip_sep]. destruct a as [|d a].
  - cbn. now intros ->.
  - intros H. rewrite (IH H). reflexivity.
Qed.

Lemma dirname_in_dir (dn name : string) :
  dn <> "" -> endswith_sep dn = false -> has_sep name = false ->
  dirname (dn +:+ String sep name) = dn.
Proof.
  intros Hne Hend Hname. unfold dirname. cbv zeta.
  rewrite dir_prefix_app_sep, (dir_prefix_no_sep _ Hname).
  rewrite rstrip_sep_app_sep, (rstrip_sep_id _ Hend).
  now rewrite (bool_decide_eq_false_2 _ Hne).
Qed.

(** The file of an identifier without separator lies in the output
    directory itself. *)
Lemma dirname_spec_output_file self sn :
  has_sep sn = false -> dirname (spec_output_file self sn) = output_dir self.
Proof.
  intros H. destruct (output_dir_shape self) as [Hne Hend].
  unfold spec_output_file. apply dirname_in_dir; [exact Hne | exact Hend|].
  rewrite has_sep_app, H. reflexivity.
Qed.

(** [open] creates no directory.  For the identifier ["a/b"] the export
    creates [out/tweets] and then fails to open
    [out/tweets/a/b_tweets.csv] ([FileNotFoundError]); when a file sits
    at [out/tweets], the errno 17 of [os.makedirs] is swallowed and the
    export fails to open the file below it ([NotADirectoryError]).  No
    file is written in either case. *)
Lemma export_needs_directory :
  let self := corpus "out" (failing_api "") in
  let r := user_tweets_to_csv self (tweets 1) "a/b" None world0 in
  let r' := user_tweets_to_csv self (tweets 1) "alice" None
              world_with_file_in_the_way in
  (fst r = Raise (OSError ENOENT)
   /\ dirs (snd r) = {[ "out"; "out/tweets" ]} /\ files (snd r) = ∅)
  /\ (fst r' = Raise (OSError ENOTDIR)
      /\ files (snd r') = files world_with_file_in_the_way).
Proof. vm_compute. repeat split. Qed.

(** C7, as stated, fails for an account identifier that begins with
    the path separator: [os.path.join] then discards the output
    directory.  The export for ["/x"] under the root ["out"] returns
    normally, the only file it leaves is ["/x_tweets.csv"], and there is
    no file at ["out/tweets//x_tweets.csv"]. *)
Lemma export_path_counterexample :
  let self := corpus "out" (failing_api "") in
  let r := user_tweets_to_csv self (tweets 1) "/x" None world0 in
  fst r = Ret tt
  /\ spec_output_file self "/x" = "out/tweets//x_tweets.csv"
  /\ files (snd r) !! spec_output_file self "/x" = None
  /\ files (snd r) = {[ "/x_tweets.csv" := csv_file (tweets 1) ]}.
Proof. vm_compute. repeat split. Qed.

(** C7, amended: for every sequence of items and every account
    identifier that does not begin with the path separator, when the
    output directory exists or can be created and the file can be
    opened (the operating system does not refuse it, the path is no
    directory, and the directory it lies in is the output directory or
    one that exists), the export returns normally and the file
    [<output_root>/tweets/<account_id>_tweets.csv] then holds the header
    row [TWEET_ID,CREATED_AT,TEXT] followed by one row (id, created-at,
    text) per item, in order; what the file held before plays no
    part. *)
Theorem export_writes_csv self items sn conn w :
  startswith_sep sn = false ->
  dir_available w (output_dir self) ->
  faults w !! spec_output_file self sn = None ->
  spec_output_file self sn ∉ dirs w ->
  (dirname (spec_output_file self sn) = output_dir self
   \/ dirname (spec_output_file self sn) ∈ dirs w) ->
  let w' := after_export self items sn conn w in
  user_tweets_to_csv self items sn conn w = (Ret tt, w')
  /\ files w' !! spec_output_file self sn = Some (csv_file items)
  /\ csv_file items
     = ("TWEET_ID,CREATED_AT,TEXT" +:+ String CR (String LF ""))
       +:+ String.concat ""
             (map (fun t => csv_record [Status.id_str t; Status.created_at t;
                                        Status.text t]) items).
Proof.
  intros Hsn Hdir Hq Hd Hpar w'.
  pose proof (output_file_relative self sn Hsn) as Hfp.
  destruct (user_tweets_to_csv_ok self items sn conn w Hdir)
    as (Hrun & _ & _ & Hfiles & _).
  { rewrite Hfp. split; [exact Hq|]. split; [|exact Hpar].
    rewrite elem_of_union. intros [H | H]; [exact (Hd H)|].
    exact (spec_output_file_not_created self sn H). }
  split; [exact Hrun|]. split.
  - subst w'. rewrite Hfiles, Hfp. apply lookup_insert_eq.
  - unfold csv_file, csv_rows. now rewrite map_map.
Qed.

Lemma export_writes_csv_witness :
  files world_with_old_file !! "out/tweets/alice_tweets.csv" = Some "stale"
  /\ files (after_export (corpus "out" (failing_api "")) (tweets 2) "alice"
              (Some worker_conn) world_with_old_file)
     !! "out/tweets/alice_tweets.csv"
     = Some (csv_file (tweets 2)).
Proof.
  split; [vm_compute; reflexivity|].
  refine (proj1 (proj2 (export_writes_csv (corpus "out" (failing_api ""))
                          (tweets 2) "alice" (Some worker_conn)
                          world_with_old_file _ _ _ _ _))).
  - reflexivity.
  - left. by_compute.
  - vm_compute. reflexivity.
  - by_compute.
  - left. vm_compute. reflexivity.
Defined.

(** C10: an account whose fetch fails is not always exported.  When the
    first request is refused the batch exports the empty list: the
    output directory is created and the account's file holds the header
    row alone.  When the platform serves a page and refuses the next
    request, or when the account has no item, the exception raised in
    the fetch ends the batch before the export: the exporter is invoked
    zero times, no directory is created and no file is written. *)
Theorem failed_fetch_without_export :
  let run api :=
    get_multi_user_tweets 5 (corpus "out" api) ["alice"] (Some worker_conn)
      world0 in
  let refused := run (failing_api "Not authorized.") in
  let interrupted := run (flaky_api 1 "Rate limit exceeded") in
  let empty := run (timeline_api (fun _ => [])) in
  (fst refused = Ret tt
   /\ exported (snd refused) = [("alice", [])]
   /\ dirs (snd refused) = {[ "out"; "out/tweets" ]}
   /\ files (snd refused)
      = {[ "out/tweets/alice_tweets.csv"
           := "TWEET_ID,CREATED_AT,TEXT" +:+ String CR (String LF "") ]})
  /\ (fst interrupted = Raise (TweepError "Rate limit exceeded")
      /\ exported (snd interrupted) = []
      /\ dirs (snd interrupted) = ∅
      /\ files (snd interrupted) = ∅)
  /\ (fst empty = Raise IndexError
      /\ exported (snd empty) = []
      /\ dirs (snd empty) = ∅
      /\ files (snd empty) = ∅).
Proof. vm_compute. repeat split. Qed.

(** ** The orchestrator's export log *)

Lemma user_timeline_exported self sn count max_id w :
  exported (snd (user_timeline self sn count max_id w)) = exported w.
Proof. unfold user_timeline. cbv zeta. now destruct (api self _ _). Qed.

Lemma notify_exported conn m w : exported (snd (notify conn m w)) = exported w.
Proof. now destruct conn. Qed.

Lemma loop_body_exported self sn conn st w :
  exported (snd (loop_body self sn conn st w)) = exported w.
Proof.
  destruct (api self (calls w) (next_request sn (oldest st)))
    as [page | reason] eqn:Hp.
  - destruct (last (user_tweets st ++ page)) as [t|] eqn:Hl.
    + rewrite (loop_body_page _ _ _ _ _ _ _ Hp Hl). cbn [snd].
      now rewrite notify_exported.
    + now rewrite (loop_body_index_error _ _ _ _ _ _ Hp Hl).
  - now rewrite (loop_body_error _ _ _ _ _ _ Hp).
Qed.

Lemma while_loop_exported self sn conn fuel :
  forall st w, exported (snd (while_loop fuel self sn conn st w)) = exported w.
Proof.
  induction fuel as [|fuel IH]; intros st w.
  - cbn [while_loop]. now destruct (0 <? length (new_tweets st))%nat.
  - destruct (decide (new_tweets st = [])) as [Hnil | Hne].
    { now rewrite (while_loop_exit _ _ _ _ _ _ Hnil). }
    rewrite (while_loop_enter _ _ _ _ _ _ Hne).
    pose proof (loop_body_exported self sn conn st w) as Hb.
    unfold mbind, M_bind.
    destruct (loop_body self sn conn st w) as [[st'| |] w1]; cbn [snd] in *;
      [|exact Hb|exact Hb].
    now rewrite IH.
Qed.

Lemma get_user_tweets_exported fuel self sn conn w :
  exported (snd (get_user_tweets fuel self sn conn w)) = exported w.
Proof.
  destruct (api self (calls w) (first_request sn)) as [page | reason] eqn:Hp.
  - rewrite (get_user_tweets_first_page _ _ _ _ _ _ Hp).
    unfold else_clause, index_last. cbn [app].
    destruct (last page) as [t|]; [|reflexivity].
    unfold mbind, M_bind, mret, M_ret.
    match goal with
    | |- context [while_loop fuel self sn conn ?s ?v] =>
        pose proof (while_loop_exported self sn conn fuel s v) as Hw;
        destruct (while_loop fuel self sn conn s v) as [[st'| |] w1]
    end; exact Hw.
  - rewrite (get_user_tweets_initial_failure _ _ _ _ _ _ Hp).
    unfold after_failed_fetch. cbn [snd]. now rewrite notify_exported.
Qed.

Lemma ensure_dir_exported dn w :
  exported (snd (ensure_dir dn w)) = exported w.
Proof.
  unfold ensure_dir, try_except, try_except_else, makedirs.
  destruct (bool_decide (dn ∈ dirs w) || bool_decide (is_Some (files w !! dn)));
    [reflexivity|].
  destruct (faults w !! dn) as [errno|]; [|reflexivity].
  now destruct (bool_decide (errno ≠ 17%Z)).
Qed.

Lemma write_csv_exported fp rows conn w :
  exported (snd (write_csv fp rows conn w)) = exported w.
Proof.
  destruct (write_csv_cases fp rows conn w) as [[e ->] | ->]; [reflexivity|].
  cbn [snd]. now rewrite notify_exported.
Qed.

Lemma user_tweets_to_csv_exported self items sn conn w :
  exported (snd (user_tweets_to_csv self items sn conn w))
  = exported w ++ [(sn, items)].
Proof.
  rewrite user_tweets_to_csv_steps. unfold mbind, M_bind.
  pose proof (ensure_dir_exported (output_dir self) (log_export sn items w))
    as He.
  destruct (ensure_dir (output_dir self) (log_export sn items w))
    as [[[]| |] w1]; cbn [snd] in *; [|exact He|exact He].
  now rewrite write_csv_exported, He.
Qed.

(** Whenever the batch returns, the exporter has been invoked exactly
    once per identifier, in input order. *)
Lemma batch_exports_in_order fuel self conn sns :
  forall w w',
    get_multi_user_tweets fuel self sns conn w = (Ret tt, w') ->
    (exported w').*1 = (exported w).*1 ++ sns.
Proof.
  induction sns as [|sn sns IH]; intros w w' Hrun.
  - cbn in Hrun. injection Hrun as <-. now rewrite app_nil_r.
  - cbn [get_multi_user_tweets] in Hrun. unfold mbind, M_bind in Hrun.
    pose proof (announce_ret conn sn w) as Ha.
    destruct (announce conn sn w) as [oa wa] eqn:Ea. cbn in Ha. subst oa.
    assert (Hwa : exported wa = exported w).
    { apply (f_equal snd) in Ea. cbn in Ea. subst wa. now destruct conn. }
    pose proof (get_user_tweets_exported fuel self sn conn wa) as Hf.
    destruct (get_user_tweets fuel self sn conn wa) as [[items| |] wf];
      try discriminate. cbn [snd] in Hf.
    pose proof (user_tweets_to_csv_exported self items sn conn wf) as Hx.
    destruct (user_tweets_to_csv self items sn conn wf) as [[[]| |] wx];
      try discriminate. cbn [snd] in Hx.
    pose proof (notify_exported conn (Text ("Done with " +:+ sn +:+ "!")) wx)
      as Hn.
    destruct (notify conn (Text ("Done with " +:+ sn +:+ "!")) wx)
      as [[[]| |] wn] eqn:En; try discriminate. cbn [snd] in Hn.
    rewrite (IH _ _ Hrun), Hn, Hx, Hf, Hwa.
    rewrite fmap_app. cbn. now rewrite <- app_assoc.
Qed.

(** ** The interface *)

Lemma split_newline_nonempty (s : string) : split_newline s <> [].
Proof.
  destruct s as [|c s]; cbn; [discriminate|].
  destruct (bool_decide (c = LF)); [discriminate|].
  now destruct (split_newline s).
Qed.

Lemma split_newline_app_LF (s : string) :
  split_newline (s +:+ String LF "") = split_newline s ++ [""].
Proof.
  induction s as [|c s IH]; [reflexivity|].
  rewrite string_app_cons. cbn [split_newline].
  destruct (bool_decide (c = LF)).
  - now rewrite IH.
  - rewrite IH. pose proof (split_newline_nonempty s).
    now destruct (split_newline s).
Qed.

Lemma collect_screen_names (ls acc : list string) :
  foldl (fun screen_names l =>
           let l := strip l in
           if bool_decide (l ≠ "") then screen_names ++ [l] else screen_names)
        acc ls
  = acc ++ filter (fun l => l ≠ "") (strip <$> ls).
Proof.
  revert acc. induction ls as [|l ls IH]; intros acc.
  - cbn. now rewrite app_nil_r.
  - cbn [foldl fmap list_fmap]. rewrite IH. cbv zeta.
    rewrite filter_cons. case_bool_decide as Hl.
    + rewrite decide_True by exact Hl. now rewrite <- app_assoc.
    + rewrite decide_False by (intros Hne; now apply Hne). reflexivity.
Qed.

Lemma read_screen_names_widget (text : string) :
  read_screen_names (text +:+ String LF "") = account_identifiers text.
Proof.
  unfold read_screen_names, account_identifiers.
  rewrite bool_decide_eq_true_2.
  2:{ intros H. apply (f_equal String.length) in H.
      rewrite string_length_app in H. cbn in H. lia. }
  rewrite collect_screen_names, split_newline_app_LF. cbn [app].
  rewrite fmap_app, filter_app. cbn.
  now rewrite app_nil_r.
Qed.

(** C9: when the text of the input widget yields no account identifier
    (every line is blank once trimmed), [download_tweets] leaves the
    interface state as it was: no corpus is built, no process is
    started, no timer is armed, the button stays as it is. *)
Theorem empty_input_is_noop
    (tweepy_API : string -> string -> string -> string -> API)
    (self : BirdbodyGUI) :
  account_identifiers (screen_names_text self) = [] ->
  download_tweets tweepy_API self = self
  /\ started (download_tweets tweepy_API self) = started self
  /\ download_worker_proc (download_tweets tweepy_API self)
     = download_worker_proc self.
Proof.
  intros H.
  assert (Hd : download_tweets tweepy_API self = self).
  { unfold download_tweets. cbv zeta.
    rewrite read_screen_names_widget, H.
    now rewrite bool_decide_eq_false_2 by (intros Hne; now apply Hne). }
  now rewrite Hd.
Qed.

Lemma empty_input_is_noop_witness :
  download_tweets (fun _ _ _ _ => failing_api "") (idle_gui blank_text)
  = idle_gui blank_text.
Proof.
  refine (proj1 (empty_input_is_noop (fun _ _ _ _ => failing_api "")
                   (idle_gui blank_text) _)).
  vm_compute. reflexivity.
Defined.

(** The other direction: with at least one identifier a worker is
    started on exactly the identifiers read. *)
Lemma nonempty_input_starts_worker
    (tweepy_API : string -> string -> string -> string -> API)
    (self : BirdbodyGUI) :
  account_identifiers (screen_names_text self) <> [] ->
  exists proc,
    download_worker_proc (download_tweets tweepy_API self) = Some proc
    /\ started (download_tweets tweepy_API self) = started self ++ [proc]
    /\ args proc = (account_identifiers (screen_names_text self), worker_conn).
Proof.
  intros H. unfold download_tweets. cbv zeta.
  rewrite read_screen_names_widget.
  rewrite bool_decide_eq_true_2 by exact H.
  eexists. cbn. repeat split.
Qed.

(** ** The pagination loop on a timeline *)

Lemma filter_none {A} (p : A -> bool) (l : list A) :
  (forall x, x ∈ l -> p x = false) -> List.filter p l = [].
Proof.
  induction l as [|a l IH]; intros H; [reflexivity|].
  cbn. rewrite (H a) by (left). apply IH. intros x Hx. apply H. now right.
Qed.

Lemma filter_all {A} (p : A -> bool) (l : list A) :
  (forall x, x ∈ l -> p x = true) -> List.filter p l = l.
Proof.
  induction l as [|a l IH]; intros H; [reflexivity|].
  cbn. rewrite (H a) by (left). f_equal. apply IH. intros x Hx. apply H.
  now right.
Qed.

(** Below the id of the last item fetched, a descending timeline holds
    exactly the items not fetched yet. *)
Lemma filter_below_cursor (done rest : list Status.t) (t : Status.t) :
  descending (done ++ rest) -> last done = Some t ->
  List.filter (fun x => (Status.id x <=? Status.id t - 1)%Z) (done ++ rest)
  = rest.
Proof.
  intros Hs Hl. apply last_Some in Hl as [d' ->].
  rewrite List.filter_app, filter_none, filter_all; [reflexivity| |].
  - intros x Hx. apply Z.leb_le.
    assert (newer t x) as Hn.
    { apply (StronglySorted_app_1_elem_of _ _ _ _ _ Hs); [|exact Hx].
      apply elem_of_app. right. now left. }
    unfold newer in Hn. lia.
  - intros x Hx. apply Z.leb_gt.
    apply elem_of_app in Hx as [Hx | Hx].
    + apply StronglySorted_app_1_l in Hs.
      pose proof (StronglySorted_app_1_elem_of _ _ _ x t Hs Hx) as Hn.
      unfold newer in Hn. specialize (Hn ltac:(left)). lia.
    + apply list_elem_of_singleton in Hx as ->. lia.
Qed.

Lemma ceil_div_0 : ceil_div 0 200 = 0.
Proof. reflexivity. Qed.

Lemma ceil_div_step (n : nat) :
  0 < n -> ceil_div n 200 = S (ceil_div (n - 200) 200).
Proof.
  intros Hn. destruct (le_lt_dec n 200) as [Hle | Hgt].
  - replace (n - 200) with 0 by lia. rewrite ceil_div_0.
    unfold ceil_div. symmetry. apply (Nat.div_unique _ _ _ (n - 1)); lia.
  - unfold ceil_div.
    replace (n + 200 - 1) with ((n - 200 + 200 - 1) + 1 * 200) by lia.
    rewrite Nat.div_add by lia. lia.
Qed.

Section Timeline.

(** A corpus whose platform serves [timeline]. *)
Variable timeline : string -> list Status.t.
Variable self : TwitterCorpus.
Hypothesis Hapi : api self = timeline_api timeline.
Variables (sn : string) (conn : option Connection).

Lemma timeline_page log (done rest : list Status.t) t :
  timeline sn = done ++ rest -> descending (done ++ rest) ->
  last done = Some t ->
  api self log (next_request sn (Status.id t - 1)) = inl (take 200 rest).
Proof.
  intros Htl Hs Hl. rewrite Hapi. unfold timeline_api, next_request.
  cbn [rq_count rq_max_id rq_screen_name].
  rewrite Htl, (filter_below_cursor _ _ _ Hs Hl). reflexivity.
Qed.

Lemma timeline_first_page log :
  api self log (first_request sn) = inl (take 200 (timeline sn)).
Proof.
  rewrite Hapi. unfold timeline_api, first_request.
  cbn [rq_count rq_max_id rq_screen_name].
  now rewrite filter_all.
Qed.

(** The loop invariant: [done] is what has been fetched, [rest] what
    the timeline still holds below the cursor. *)
Lemma while_loop_timeline fuel :
  forall new done rest t w,
    timeline sn = done ++ rest -> descending (done ++ rest) ->
    last done = Some t -> new <> [] ->
    ceil_div (length rest) 200 < fuel ->
    exists st' w',
      while_loop fuel self sn conn
        {| new_tweets := new; user_tweets := done;
           oldest := (Status.id t - 1)%Z |} w = (Ret st', w')
      /\ user_tweets st' = done ++ rest
      /\ length (calls w') = length (calls w) + S (ceil_div (length rest) 200).
Proof.
  induction fuel as [|fuel IH];
    intros new done rest t w Htl Hs Hl Hnew Hfuel; [lia|].
  rewrite while_loop_enter by exact Hnew.
  pose proof (timeline_page (calls w) done rest t Htl Hs Hl) as Hp.
  destruct rest as [|r rest'].
  - (* nothing left: the empty page ends the loop *)
    cbn [take] in Hp.
    erewrite bind_ret.
    2:{ apply loop_body_page with (t' := t); cbn [oldest user_tweets];
          [exact Hp | now rewrite app_nil_r]. }
    rewrite while_loop_exit by reflexivity.
    eexists _, _. split; [reflexivity|]. cbn [user_tweets].
    split; [reflexivity|].
    rewrite notify_calls. cbn. rewrite length_app. cbn. lia.
  - (* a further page *)
    set (rest := r :: rest') in *.
    set (page := take 200 rest) in *.
    assert (Hpage : page <> []) by (subst page rest; discriminate).
    destruct (last page) as [t'|] eqn:Hlast;
      [|apply last_None in Hlast; contradiction].
    assert (Hl' : last (done ++ page) = Some t')
      by (rewrite last_app, Hlast; reflexivity).
    erewrite bind_ret.
    2:{ apply loop_body_page with (t' := t'); cbn [oldest user_tweets];
          [exact Hp | exact Hl']. }
    assert (Hsplit : (done ++ page) ++ drop 200 rest = done ++ rest).
    { rewrite <- app_assoc. subst page. now rewrite take_drop. }
    edestruct (IH page (done ++ page) (drop 200 rest) t')
      as (st' & w' & Hrun & Hu & Hc).
    + now rewrite Hsplit.
    + now rewrite Hsplit.
    + exact Hl'.
    + exact Hpage.
    + rewrite length_drop.
      rewrite (ceil_div_step (length rest)) in Hfuel by (subst rest; cbn; lia).
      lia.
    + exists st', w'. split; [exact Hrun|]. split; [now rewrite Hu, Hsplit|].
      rewrite Hc, notify_calls. unfold record_call. cbn [calls set_calls].
      rewrite length_app, length_drop. cbn [length].
      rewrite (ceil_div_step (length rest)) by (subst rest; cbn; lia). lia.
Qed.

Lemma get_user_tweets_timeline w fuel :
  descending (timeline sn) -> timeline sn <> [] ->
  ceil_div (length (timeline sn)) 200 <= fuel ->
  exists w',
    get_user_tweets fuel self sn conn w = (Ret (timeline sn), w')
    /\ length (calls w')
       = length (calls w) + (ceil_div (length (timeline sn)) 200 + 1).
Proof.
  intros Hs Hne Hfuel.
  set (page := take 200 (timeline sn)).
  pose proof (timeline_first_page (calls w)) as Hp. fold page in Hp.
  assert (Hpage : page <> []).
  { subst page. destruct (timeline sn); [congruence | discriminate]. }
  destruct (last page) as [t|] eqn:Hlast;
    [|apply last_None in Hlast; contradiction].
  assert (Hsplit : page ++ drop 200 (timeline sn) = timeline sn)
    by (subst page; apply take_drop).
  assert (Hlen : 0 < length (timeline sn))
    by (destruct (timeline sn); [congruence | cbn; lia]).
  destruct (while_loop_timeline fuel page page (drop 200 (timeline sn)) t
              (record_call (first_request sn, inl page) w))
    as (st' & w' & Hrun & Hu & Hc).
  - now rewrite Hsplit.
  - now rewrite Hsplit.
  - exact Hlast.
  - exact Hpage.
  - rewrite length_drop. rewrite (ceil_div_step _ Hlen) in Hfuel. lia.
  - exists w'. rewrite (get_user_tweets_first_page _ _ _ _ _ _ Hp).
    unfold else_clause. cbn [app]. unfold index_last. rewrite Hlast.
    split.
    + unfold mbind, M_bind, mret, M_ret in *. rewrite Hrun.
      now rewrite Hu, Hsplit.
    + rewrite Hc. unfold record_call. cbn [calls set_calls].
      rewrite length_app, length_drop. cbn [length].
      rewrite (ceil_div_step _ Hlen). lia.
Qed.

End Timeline.

(** C3, as stated, fails whether the last page is partial or empty.
    An account with 201 items is served a full page, a page of one item
    and the empty page that ends the loop: three requests, where
    [ceil(201 / 200)] is two.  An account with 200 items is served a
    full page and the empty page: two requests, where [ceil(200 / 200)]
    is one. *)
Lemma request_count_counterexample :
  (requests_made 5 (corpus "out" (timeline_api (fun _ => tweets 201))) "alice"
     None world0 = 3
   /\ ceil_div (length (tweets 201)) 200 = 2)
  /\ (requests_made 5 (corpus "out" (timeline_api (fun _ => tweets 200)))
        "alice" None world0 = 2
      /\ ceil_div (length (tweets 200)) 200 = 1)
  /\ requests_made 5 (corpus "out" (timeline_api (fun _ => tweets 201)))
       "alice" None world0
     <> ceil_div (length (tweets 201)) 200.
Proof. vm_compute. repeat split. discriminate. Qed.

(** C3, amended: for an account with at least one item whose ids
    decrease with recency, served in pages of up to 200 items below the
    cursor, the fetch (given fuel for its iterations) returns the whole
    timeline and issues exactly [ceil(total_items / 200) + 1] page
    requests: one per non-empty page, and the one answered by the empty
    page that ends the loop. *)
Theorem request_count_on_timeline timeline self sn conn w fuel :
  api self = timeline_api timeline ->
  descending (timeline sn) -> timeline sn <> [] ->
  ceil_div (length (timeline sn)) 200 <= fuel ->
  fst (get_user_tweets fuel self sn conn w) = Ret (timeline sn)
  /\ requests_made fuel self sn conn w
     = ceil_div (length (timeline sn)) 200 + 1.
Proof.
  intros Hapi Hs Hne Hfuel.
  destruct (get_user_tweets_timeline timeline self Hapi sn conn w fuel Hs Hne
              Hfuel) as (w' & Hrun & Hc).
  unfold requests_made, fetch_calls. rewrite Hrun. cbn [fst snd].
  split; [reflexivity|]. rewrite length_drop. lia.
Qed.

Lemma request_count_on_timeline_witness :
  fst (get_user_tweets 2 (corpus "out" (timeline_api (fun _ => tweets 201)))
         "alice" None world0) = Ret (tweets 201)
  /\ requests_made 2 (corpus "out" (timeline_api (fun _ => tweets 201)))
       "alice" None world0
     = ceil_div (length (tweets 201)) 200 + 1.
Proof.
  apply (request_count_on_timeline (fun _ => tweets 201)
           (corpus "out" (timeline_api (fun _ => tweets 201))) "alice" None
           world0 2).
  - reflexivity.
  - by_compute.
  - discriminate.
  - vm_compute. lia.
Defined.

(** ** The cursor *)

Lemma while_loop_chained self sn conn fuel :
  forall st w,
  exists tr,
    calls (snd (while_loop fuel self sn conn st w)) = calls w ++ tr
    /\ chained sn (Some (oldest st)) tr.
Proof.
  induction fuel as [|fuel IH]; intros st w.
  - exists []. split; [|exact I]. rewrite app_nil_r.
    cbn [while_loop]. now destruct (0 <? length (new_tweets st))%nat.
  - destruct (decide (new_tweets st = [])) as [Hnil | Hne].
    { exists []. split; [|exact I].
      now rewrite (while_loop_exit _ _ _ _ _ _ Hnil), app_nil_r. }
    rewrite (while_loop_enter _ _ _ _ _ _ Hne).
    destruct (api self (calls w) (next_request sn (oldest st)))
      as [page | reason] eqn:Hp.
    + destruct (last (user_tweets st ++ page)) as [t'|] eqn:Hl.
      * rewrite (bind_ret _ _ _ _ _ (loop_body_page _ _ _ _ _ _ _ Hp Hl)).
        match goal with
        | |- context [while_loop fuel self sn conn ?s ?v] =>
            destruct (IH s v) as (tr' & Hc & Hch);
            set (st' := s) in *; set (w1 := v) in *
        end.
        exists ((next_request sn (oldest st), inl page) :: tr').
        split.
        -- rewrite Hc. subst w1. unfold record_call.
           destruct conn; cbn; now rewrite <- app_assoc.
        -- cbn [chained]. split; [reflexivity|].
           destruct (last page) as [t|] eqn:Hlp.
           ++ rewrite last_app, Hlp in Hl. injection Hl as <-. exact Hch.
           ++ apply last_None in Hlp. subst page.
              rewrite (while_loop_exit fuel self sn conn st' w1 eq_refl) in Hc.
              cbn [snd] in Hc.
              apply (f_equal length) in Hc. rewrite length_app in Hc.
              destruct tr'; [reflexivity | cbn in Hc; lia].
      * rewrite (bind_raise _ _ _ _ _
                   (loop_body_index_error _ _ _ _ _ _ Hp Hl)).
        exists [(next_request sn (oldest st), inl page)].
        split; [reflexivity|]. cbn [chained]. split; [reflexivity|].
        apply last_app_None in Hl as [_ Hl]. now rewrite Hl.
    + rewrite (bind_raise _ _ _ _ _ (loop_body_error _ _ _ _ _ _ Hp)).
      exists [(next_request sn (oldest st), inr reason)].
      split; [reflexivity|]. cbn [chained]. now split.
Qed.

Lemma get_user_tweets_chained fuel self sn conn w :
  chained sn None (fetch_calls fuel self sn conn w).
Proof.
  unfold fetch_calls.
  destruct (api self (calls w) (first_request sn)) as [page | reason] eqn:Hp.
  - rewrite (get_user_tweets_first_page _ _ _ _ _ _ Hp).
    unfold else_clause. cbn [app]. unfold index_last.
    destruct (last page) as [t|] eqn:Hl.
    + destruct (while_loop_chained self sn conn fuel
                  {| new_tweets := page; user_tweets := page;
                     oldest := (Status.id t - 1)%Z |}
                  (record_call (first_request sn, inl page) w))
        as (tr & Hc & Hch).
      unfold mbind, M_bind, mret, M_ret in *.
      destruct (while_loop fuel self sn conn _ _) as [[st'| |] w'];
        cbn [snd] in *; rewrite Hc; unfold record_call; cbn [calls set_calls];
        rewrite <- app_assoc, drop_app_length; cbn [app chained];
        (split; [reflexivity|]); rewrite Hl; exact Hch.
    + unfold mbind, M_bind, raise. cbn [snd record_call calls set_calls].
      rewrite drop_app_length. cbn [chained]. split; [reflexivity|].
      now rewrite Hl.
  - rewrite (get_user_tweets_initial_failure _ _ _ _ _ _ Hp).
    unfold after_failed_fetch. cbn [snd]. rewrite notify_calls.
    unfold record_call. cbn [snd calls set_calls].
    rewrite drop_app_length. cbn [chained]. now split.
Qed.

Lemma chained_consecutive sn tr :
  forall cursor i rq1 resp1 rq2 resp2,
    chained sn cursor tr ->
    tr !! i = Some (rq1, resp1) -> tr !! S i = Some (rq2, resp2) ->
    exists page t,
      resp1 = inl page /\ last page = Some t
      /\ rq2 = next_request sn (Status.id t - 1).
Proof.
  induction tr as [|[rq resp] tr IH]; intros cursor i rq1 resp1 rq2 resp2 Hch H1 H2.
  - discriminate.
  - destruct i as [|i].
    + cbn in H1, H2. injection H1 as -> ->.
      destruct Hch as [_ Hch].
      destruct resp1 as [page | reason].
      * destruct (last page) as [t|] eqn:Hl.
        -- exists page, t. split; [reflexivity|]. split; [exact Hl|].
           destruct tr as [|[rq' resp'] tr']; [discriminate|].
           cbn in H2. injection H2 as -> ->.
           now destruct Hch as [-> _].
        -- subst tr. discriminate.
      * subst tr. discriminate.
    + cbn in H1, H2. destruct Hch as [_ Hch].
      destruct resp as [page | reason].
      * destruct (last page) as [t|].
        -- exact (IH _ _ _ _ _ _ Hch H1 H2).
        -- subst tr. discriminate.
      * subst tr. discriminate.
Qed.

Lemma loop_body_ret self sn conn st st' w w' :
  loop_body self sn conn st w = (Ret st', w') ->
  user_tweets st' = user_tweets st ++ new_tweets st'
  /\ exists t, last (user_tweets st') = Some t
               /\ oldest st' = (Status.id t - 1)%Z.
Proof.
  destruct (api self (calls w) (next_request sn (oldest st)))
    as [page | reason] eqn:Hp.
  - destruct (last (user_tweets st ++ page)) as [t|] eqn:Hl.
    + rewrite (loop_body_page _ _ _ _ _ _ _ Hp Hl). intros [= <- _].
      cbn. split; [reflexivity|]. now exists t.
    + now rewrite (loop_body_index_error _ _ _ _ _ _ Hp Hl).
  - now rewrite (loop_body_error _ _ _ _ _ _ Hp).
Qed.

Lemma descending_last (page : list Status.t) (t x : Status.t) :
  descending page -> last page = Some t -> x ∈ page ->
  (Status.id t <= Status.id x)%Z.
Proof.
  intros Hs Hl Hx. apply last_Some in Hl as [l' ->].
  apply elem_of_app in Hx as [Hx | Hx].
  - pose proof (StronglySorted_app_1_elem_of _ _ _ x t Hs Hx) as Hn.
    unfold newer in Hn. specialize (Hn ltac:(left)). lia.
  - apply list_elem_of_singleton in Hx as ->. lia.
Qed.

(** C4: within one account's fetch, whenever a request follows
    another, the earlier one was answered by a non-empty page P1 and the
    later one carries the cursor (id of P1's last item) - 1, a value
    fixed by that page alone.  The cursor is strictly below every id in
    P1 when the ids of P1 decrease, and strictly below the cursor of the
    earlier request when the platform served in P1 only ids at most that
    cursor: from one request to the next the cursor never increases. *)
Theorem cursor_follows_previous_page fuel self sn conn w i rq1 resp1 rq2 resp2 :
  fetch_calls fuel self sn conn w !! i = Some (rq1, resp1) ->
  fetch_calls fuel self sn conn w !! S i = Some (rq2, resp2) ->
  exists page t,
    resp1 = inl page /\ last page = Some t
    /\ rq_max_id rq2 = Some (Status.id t - 1)%Z
    /\ (descending page ->
        forall x, x ∈ page -> (Status.id t - 1 < Status.id x)%Z)
    /\ (forall c, rq_max_id rq1 = Some c ->
        (forall x, x ∈ page -> (Status.id x <= c)%Z) ->
        (Status.id t - 1 < c)%Z).
Proof.
  intros H1 H2.
  destruct (chained_consecutive sn _ None i rq1 resp1 rq2 resp2
              (get_user_tweets_chained fuel self sn conn w) H1 H2)
    as (page & t & -> & Hl & ->).
  exists page, t. split; [reflexivity|]. split; [exact Hl|].
  split; [reflexivity|]. split.
  - intros Hs x Hx. pose proof (descending_last page t x Hs Hl Hx). lia.
  - intros c _ Hle. specialize (Hle t (last_Some_elem_of _ _ Hl)). lia.
Qed.

(** On a timeline of 201 items the second request carries the cursor 1
    and is answered by the page of the item 1; the third request then
    carries the cursor 0. *)
Lemma cursor_follows_previous_page_witness :
  exists page t,
    @inl (list Status.t) string [tweet 1] = inl page /\ last page = Some t
    /\ rq_max_id (next_request "alice" 0) = Some (Status.id t - 1)%Z
    /\ (forall x, x ∈ page -> (Status.id t - 1 < Status.id x)%Z)
    /\ (Status.id t - 1 < 1)%Z.
Proof.
  destruct (cursor_follows_previous_page 3
              (corpus "out" (timeline_api (fun _ => tweets 201))) "alice"
              None world0 1 (next_request "alice" 1) (inl [tweet 1])
              (next_request "alice" 0) (inl []))
    as (page & t & Heq & Hl & Hc & Hd & Hm).
  - vm_compute. reflexivity.
  - vm_compute. reflexivity.
  - injection Heq as <-. exists [tweet 1], t.
    split; [reflexivity|]. split; [exact Hl|]. split; [exact Hc|]. split.
    + apply Hd. by_compute.
    + apply (Hm 1%Z); [reflexivity|].
      intros x Hx. apply list_elem_of_singleton in Hx as ->. cbn. lia.
Defined.

(** * Further properties of the code *)

(** ** The fetcher and the exporter keep to their own resources *)

Lemma user_timeline_disk self sn count max_id w :
  disk (snd (user_timeline self sn count max_id w)) = disk w.
Proof. unfold user_timeline. cbv zeta. now destruct (api self _ _). Qed.

Lemma notify_disk conn m w : disk (snd (notify conn m w)) = disk w.
Proof. now destruct conn. Qed.

Lemma loop_body_disk self sn conn st w :
  disk (snd (loop_body self sn conn st w)) = disk w.
Proof.
  destruct (api self (calls w) (next_request sn (oldest st)))
    as [page | reason] eqn:Hp.
  - destruct (last (user_tweets st ++ page)) as [t|] eqn:Hl.
    + rewrite (loop_body_page _ _ _ _ _ _ _ Hp Hl). cbn [snd].
      now rewrite notify_disk.
    + now rewrite (loop_body_index_error _ _ _ _ _ _ Hp Hl).
  - now rewrite (loop_body_error _ _ _ _ _ _ Hp).
Qed.

Lemma while_loop_disk self sn conn fuel :
  forall st w, disk (snd (while_loop fuel self sn conn st w)) = disk w.
Proof.
  induction fuel as [|fuel IH]; intros st w.
  - cbn [while_loop]. now destruct (0 <? length (new_tweets st))%nat.
  - destruct (decide (new_tweets st = [])) as [Hnil | Hne].
    { now rewrite (while_loop_exit _ _ _ _ _ _ Hnil). }
    rewrite (while_loop_enter _ _ _ _ _ _ Hne).
    pose proof (loop_body_disk self sn conn st w) as Hb.
    unfold mbind, M_bind.
    destruct (loop_body self sn conn st w) as [[st'| |] w1]; cbn [snd] in *;
      [|exact Hb|exact Hb].
    now rewrite IH.
Qed.

Lemma get_user_tweets_disk fuel self sn conn w :
  disk (snd (get_user_tweets fuel self sn conn w)) = disk w.
Proof.
  destruct (api self (calls w) (first_request sn)) as [page | reason] eqn:Hp.
  - rewrite (get_user_tweets_first_page _ _ _ _ _ _ Hp).
    unfold else_clause, index_last. cbn [app].
    destruct (last page) as [t|]; [|reflexivity].
    unfold mbind, M_bind, mret, M_ret.
    match goal with
    | |- context [while_loop fuel self sn conn ?s ?v] =>
        pose proof (while_loop_disk self sn conn fuel s v) as Hw;
        destruct (while_loop fuel self sn conn s v) as [[st'| |] w1]
    end; exact Hw.
  - rewrite (get_user_tweets_initial_failure _ _ _ _ _ _ Hp).
    unfold after_failed_fetch. cbn [snd]. now rewrite notify_disk.
Qed.

Lemma ensure_dir_calls dn w : calls (snd (ensure_dir dn w)) = calls w.
Proof.
  unfold ensure_dir, try_except, try_except_else, makedirs.
  destruct (bool_decide (dn ∈ dirs w) || bool_decide (is_Some (files w !! dn)));
    [reflexivity|].
  destruct (faults w !! dn) as [errno|]; [|reflexivity].
  now destruct (bool_decide (errno ≠ 17%Z)).
Qed.

Lemma ensure_dir_faults dn w : faults (snd (ensure_dir dn w)) = faults w.
Proof.
  unfold ensure_dir, try_except, try_except_else, makedirs.
  destruct (bool_decide (dn ∈ dirs w) || bool_decide (is_Some (files w !! dn)));
    [reflexivity|].
  destruct (faults w !! dn) as [errno|]; [|reflexivity].
  now destruct (bool_decide (errno ≠ 17%Z)).
Qed.

Lemma write_csv_calls fp rows conn w :
  calls (snd (write_csv fp rows conn w)) = calls w.
Proof.
  destruct (write_csv_cases fp rows conn w) as [[e ->] | ->]; [reflexivity|].
  cbn [snd]. now rewrite notify_calls.
Qed.

Lemma write_csv_faults fp rows conn w :
  faults (snd (write_csv fp rows conn w)) = faults w.
Proof.
  destruct (write_csv_cases fp rows conn w) as [[e ->] | ->]; [reflexivity|].
  cbn [snd]. now destruct conn.
Qed.

(** X1: whatever its outcome, a fetch leaves the file system and the
    export log as they were, and an export makes no request to the
    platform and leaves the table of refusals alone. *)
Theorem fetch_and_export_are_separate fuel self sn conn items w :
  disk (snd (get_user_tweets fuel self sn conn w)) = disk w
  /\ exported (snd (get_user_tweets fuel self sn conn w)) = exported w
  /\ calls (snd (user_tweets_to_csv self items sn conn w)) = calls w
  /\ faults (snd (user_tweets_to_csv self items sn conn w)) = faults w.
Proof.
  split; [apply get_user_tweets_disk|].
  split; [apply get_user_tweets_exported|].
  rewrite user_tweets_to_csv_steps. unfold mbind, M_bind.
  pose proof (ensure_dir_calls (output_dir self) (log_export sn items w)) as Hc.
  pose proof (ensure_dir_faults (output_dir self) (log_export sn items w)) as Hf.
  destruct (ensure_dir (output_dir self) (log_export sn items w))
    as [[[]| |] w1]; cbn [snd] in *; try (split; [exact Hc | exact Hf]).
  rewrite write_csv_calls, write_csv_faults. now split.
Qed.

(** ** What a fetch that returns has seen *)

Lemma loop_body_ret_page self sn conn st st' w w' :
  loop_body self sn conn st w = (Ret st', w') ->
  calls w' = calls w ++ [(next_request sn (oldest st), inl (new_tweets st'))]
  /\ user_tweets st' = user_tweets st ++ new_tweets st'.
Proof.
  destruct (api self (calls w) (next_request sn (oldest st)))
    as [page | reason] eqn:Hp.
  - destruct (last (user_tweets st ++ page)) as [t|] eqn:Hl.
    + rewrite (loop_body_page _ _ _ _ _ _ _ Hp Hl). intros [= <- <-].
      cbn [new_tweets user_tweets]. now rewrite notify_calls.
    + now rewrite (loop_body_index_error _ _ _ _ _ _ Hp Hl).
  - now rewrite (loop_body_error _ _ _ _ _ _ Hp).
Qed.

Lemma pages_of_cons_page rq page tr :
  pages_of ((rq, inl page) :: tr) = page :: pages_of tr.
Proof. reflexivity. Qed.

Lemma while_loop_ret_trace self sn conn fuel :
  forall st w st' w',
    new_tweets st <> [] ->
    while_loop fuel self sn conn st w = (Ret st', w') ->
    exists tr0 rq,
      calls w' = calls w ++ tr0 ++ [(rq, inl [])]
      /\ Forall full_page tr0
      /\ user_tweets st' = user_tweets st ++ concat (pages_of tr0).
Proof.
  induction fuel as [|fuel IH]; intros st w st' w' Hne Hrun.
  - cbn [while_loop] in Hrun. destruct (new_tweets st); [congruence|].
    discriminate.
  - rewrite (while_loop_enter _ _ _ _ _ _ Hne) in Hrun.
    unfold mbind, M_bind in Hrun.
    destruct (loop_body self sn conn st w) as [[st1| |] w1] eqn:Hb;
      try discriminate.
    apply loop_body_ret_page in Hb as [Hc Hu].
    destruct (decide (new_tweets st1 = [])) as [Hnil | Hne1].
    + rewrite (while_loop_exit _ _ _ _ _ _ Hnil) in Hrun.
      injection Hrun as <- <-.
      exists [], (next_request sn (oldest st)).
      rewrite Hc, Hu, Hnil. cbn. now split.
    + destruct (IH st1 w1 st' w' Hne1 Hrun) as (tr0 & rq & Hc' & Hfull & Hu').
      exists ((next_request sn (oldest st), inl (new_tweets st1)) :: tr0), rq.
      split; [|split].
      * rewrite Hc', Hc. now rewrite <- app_assoc.
      * constructor; [|exact Hfull]. now exists (new_tweets st1).
      * rewrite Hu', Hu, pages_of_cons_page. cbn [concat].
        now rewrite <- app_assoc.
Qed.

Lemma get_user_tweets_ret_trace fuel self sn conn w items w' :
  get_user_tweets fuel self sn conn w = (Ret items, w') ->
  (items = []
   /\ exists reason,
        fetch_calls fuel self sn conn w = [(first_request sn, inr reason)])
  \/ (items <> []
      /\ exists tr0 rq,
           fetch_calls fuel self sn conn w = tr0 ++ [(rq, inl [])]
           /\ Forall full_page tr0
           /\ items = concat (pages_of tr0)).
Proof.
  intros Hrun. unfold fetch_calls. rewrite Hrun. cbn [snd].
  destruct (api self (calls w) (first_request sn)) as [page | reason] eqn:Hp.
  - right. rewrite (get_user_tweets_first_page _ _ _ _ _ _ Hp) in Hrun.
    unfold else_clause, index_last in Hrun. cbn [app] in Hrun.
    destruct (last page) as [t|] eqn:Hl; [|discriminate].
    assert (Hne : page <> []) by (intros ->; discriminate).
    unfold mbind, M_bind, mret, M_ret in Hrun.
    match type of Hrun with
    | context [while_loop fuel self sn conn ?s ?v] =>
        destruct (while_loop fuel self sn conn s v) as [[st'| |] w1] eqn:Hw;
        try discriminate
    end.
    injection Hrun as <- <-.
    apply while_loop_ret_trace in Hw as (tr0 & rq & Hc & Hfull & Hu);
      [|exact Hne].
    cbn [user_tweets] in Hu. unfold record_call in Hc. cbn [calls set_calls] in Hc.
    split.
    { rewrite Hu. destruct page; [congruence | discriminate]. }
    exists ((first_request sn, inl page) :: tr0), rq.
    split; [|split].
    + rewrite Hc, <- app_assoc, drop_app_length. reflexivity.
    + constructor; [|exact Hfull]. now exists page.
    + now rewrite Hu, pages_of_cons_page.
  - left. rewrite (get_user_tweets_initial_failure _ _ _ _ _ _ Hp) in Hrun.
    injection Hrun as <- <-. split; [reflexivity|]. exists reason.
    unfold after_failed_fetch. cbn [snd]. rewrite notify_calls.
    unfold record_call. cbn [calls set_calls]. now rewrite drop_app_length.
Qed.

(** X2: a fetch that returns a non-empty list has been answered by
    pages only, each of them non-empty except the last, which is empty;
    what it returns is the concatenation of these pages in the order of
    their arrival. *)
Theorem fetch_returns_pages_in_order fuel self sn conn w items w' :
  get_user_tweets fuel self sn conn w = (Ret items, w') ->
  items <> [] ->
  exists tr0 rq,
    fetch_calls fuel self sn conn w = tr0 ++ [(rq, inl [])]
    /\ Forall full_page tr0
    /\ items = concat (pages_of tr0).
Proof.
  intros Hrun Hne.
  destruct (get_user_tweets_ret_trace _ _ _ _ _ _ _ Hrun)
    as [[Hnil _] | [_ H]]; [contradiction | exact H].
Qed.

Lemma fetch_returns_pages_in_order_witness :
  exists tr0 rq,
    fetch_calls 3 (corpus "out" (timeline_api (fun _ => tweets 3))) "alice"
      None world0 = tr0 ++ [(rq, inl [])]
    /\ Forall full_page tr0
    /\ tweets 3 = concat (pages_of tr0).
Proof.
  refine (fetch_returns_pages_in_order 3
            (corpus "out" (timeline_api (fun _ => tweets 3))) "alice" None
            world0 (tweets 3)
            (snd (get_user_tweets 3
                    (corpus "out" (timeline_api (fun _ => tweets 3))) "alice"
                    None world0)) _ _).
  - vm_compute. reflexivity.
  - discriminate.
Defined.

(** X3: a fetch returns the empty list only when its first request was
    refused, after that single call; an account that merely has no item
    never gives an empty result. *)
Theorem empty_result_means_refusal fuel self sn conn w w' :
  get_user_tweets fuel self sn conn w = (Ret [], w') ->
  exists reason,
    api self (calls w) (first_request sn) = inr reason
    /\ fetch_calls fuel self sn conn w = [(first_request sn, inr reason)]
    /\ last (observed conn w') = Some (Exc (TweepError reason)).
Proof.
  intros Hrun.
  destruct (api self (calls w) (first_request sn)) as [page | reason] eqn:Hp.
  - destruct (get_user_tweets_ret_trace _ _ _ _ _ _ _ Hrun)
      as [[_ [reason Hc]] | [Hne _]]; [|congruence].
    exfalso. unfold fetch_calls in Hc.
    rewrite (get_user_tweets_first_page _ _ _ _ _ _ Hp) in Hrun, Hc.
    unfold else_clause, index_last in Hrun, Hc. cbn [app] in Hrun, Hc.
    destruct (last page) as [t|]; [|discriminate].
    unfold mbind, M_bind, mret, M_ret in Hrun, Hc.
    match type of Hrun with
    | context [while_loop fuel self sn conn ?s ?v] =>
        destruct (while_loop_chained self sn conn fuel s v) as (tr & Htr & _);
        destruct (while_loop fuel self sn conn s v) as [[st'| |] w1];
        try discriminate
    end.
    cbn [snd] in Hc, Htr. rewrite Htr in Hc.
    unfold record_call in Hc. cbn [calls set_calls] in Hc.
    rewrite <- app_assoc, drop_app_length in Hc. cbn in Hc. congruence.
  - exists reason. split; [reflexivity|].
    rewrite (get_user_tweets_initial_failure _ _ _ _ _ _ Hp) in Hrun.
    injection Hrun as <-. split.
    + unfold fetch_calls.
      rewrite (get_user_tweets_initial_failure _ _ _ _ _ _ Hp).
      unfold after_failed_fetch. cbn [snd]. rewrite notify_calls.
      unfold record_call. cbn [calls set_calls]. now rewrite drop_app_length.
    + unfold after_failed_fetch. destruct conn; cbn; apply last_snoc.
Qed.

Lemma empty_result_means_refusal_witness :
  exists reason,
    api (corpus "out" (failing_api "Not authorized.")) (calls world0)
      (first_request "alice") = inr reason
    /\ fetch_calls 0 (corpus "out" (failing_api "Not authorized.")) "alice"
         None world0 = [(first_request "alice", inr reason)]
    /\ last (observed None
               (after_failed_fetch "alice" None "Not authorized." world0))
       = Some (Exc (TweepError reason)).
Proof.
  refine (empty_result_means_refusal 0
            (corpus "out" (failing_api "Not authorized.")) "alice" None
            world0 _ _).
  reflexivity.
Defined.

(** ** The progress messages *)

Lemma loop_body_ret_msg self sn conn st st' w w' :
  loop_body self sn conn st w = (Ret st', w') ->
  observed conn w'
  = observed conn w ++ [progress_msg (length (user_tweets st')) sn].
Proof.
  destruct (api self (calls w) (next_request sn (oldest st)))
    as [page | reason] eqn:Hp.
  - destruct (last (user_tweets st ++ page)) as [t|] eqn:Hl.
    + rewrite (loop_body_page _ _ _ _ _ _ _ Hp Hl). intros [= <- <-].
      now destruct conn.
    + now rewrite (loop_body_index_error _ _ _ _ _ _ Hp Hl).
  - now rewrite (loop_body_error _ _ _ _ _ _ Hp).
Qed.

Lemma while_loop_last_msg self sn conn fuel :
  forall st w st' w',
    new_tweets st <> [] ->
    while_loop fuel self sn conn st w = (Ret st', w') ->
    last (observed conn w')
    = Some (progress_msg (length (user_tweets st')) sn).
Proof.
  induction fuel as [|fuel IH]; intros st w st' w' Hne Hrun.
  - cbn [while_loop] in Hrun. destruct (new_tweets st); [congruence|].
    discriminate.
  - rewrite (while_loop_enter _ _ _ _ _ _ Hne) in Hrun.
    unfold mbind, M_bind in Hrun.
    destruct (loop_body self sn conn st w) as [[st1| |] w1] eqn:Hb;
      try discriminate.
    apply loop_body_ret_msg in Hb.
    destruct (decide (new_tweets st1 = [])) as [Hnil | Hne1].
    + rewrite (while_loop_exit _ _ _ _ _ _ Hnil) in Hrun.
      injection Hrun as <- <-. rewrite Hb. apply last_snoc.
    + exact (IH st1 w1 st' w' Hne1 Hrun).
Qed.

(** X4: when a fetch returns a non-empty list, the last message the
    observer has received is the progress message that reports exactly
    the number of items returned. *)
Theorem last_progress_reports_total fuel self sn conn w items w' :
  get_user_tweets fuel self sn conn w = (Ret items, w') ->
  items <> [] ->
  last (observed conn w') = Some (progress_msg (length items) sn).
Proof.
  intros Hrun Hne.
  destruct (api self (calls w) (first_request sn)) as [page | reason] eqn:Hp.
  - rewrite (get_user_tweets_first_page _ _ _ _ _ _ Hp) in Hrun.
    unfold else_clause, index_last in Hrun. cbn [app] in Hrun.
    destruct (last page) as [t|] eqn:Hl; [|discriminate].
    assert (Hpage : page <> []) by (intros ->; discriminate).
    unfold mbind, M_bind, mret, M_ret in Hrun.
    match type of Hrun with
    | context [while_loop fuel self sn conn ?s ?v] =>
        destruct (while_loop fuel self sn conn s v) as [[st'| |] w1] eqn:Hw;
        try discriminate
    end.
    injection Hrun as <- <-.
    exact (while_loop_last_msg self sn conn fuel
             {| new_tweets := page; user_tweets := page;
                oldest := (Status.id t - 1)%Z |} _ _ _ Hpage Hw).
  - rewrite (get_user_tweets_initial_failure _ _ _ _ _ _ Hp) in Hrun.
    injection Hrun as <- _. congruence.
Qed.

Lemma last_progress_reports_total_witness :
  last (observed (Some worker_conn)
          (snd (get_user_tweets 3
                  (corpus "out" (timeline_api (fun _ => tweets 3))) "alice"
                  (Some worker_conn) world0)))
  = Some (progress_msg (length (tweets 3)) "alice").
Proof.
  refine (last_progress_reports_total 3
            (corpus "out" (timeline_api (fun _ => tweets 3))) "alice"
            (Some worker_conn) world0 (tweets 3) _ _ _).
  - vm_compute. reflexivity.
  - discriminate.
Defined.

(** ** One file per identifier *)

Lemma string_app_inj_r (a b s : string) : a +:+ s = b +:+ s -> a = b.
Proof.
  intros H.
  assert (Hlen : String.length a = String.length b).
  { apply (f_equal String.length) in H. rewrite !string_length_app in H. lia. }
  revert b H Hlen. induction a as [|c a IH]; intros [|d b] H Hlen;
    try discriminate; [reflexivity|].
  rewrite !string_app_cons in H. injection H as -> H.
  f_equal. apply IH; [exact H|]. cbn in Hlen. lia.
Qed.

Lemma spec_output_file_inj self sn sn' :
  spec_output_file self sn = spec_output_file self sn' -> sn = sn'.
Proof.
  unfold spec_output_file. intros H.
  apply (inj (String.append (output_dir self))) in H.
  injection H as H. exact (string_app_inj_r _ _ _ H).
Qed.

Lemma output_file_distinct self sn sn' :
  startswith_sep sn = false -> startswith_sep sn' = false ->
  sn <> sn' ->
  output_file self sn <> output_file self sn'.
Proof.
  intros H H' Hne Heq.
  rewrite !output_file_relative in Heq by assumption.
  exact (Hne (spec_output_file_inj _ _ _ Heq)).
Qed.

Lemma dirname_output_file self sn :
  has_sep sn = false -> dirname (output_file self sn) = output_dir self.
Proof.
  intros H. rewrite (output_file_relative self sn (has_sep_startswith sn H)).
  now apply dirname_spec_output_file.
Qed.

Lemma ensure_dir_files dn w : files (snd (ensure_dir dn w)) = files w.
Proof.
  unfold ensure_dir, try_except, try_except_else, makedirs.
  destruct (bool_decide (dn ∈ dirs w) || bool_decide (is_Some (files w !! dn)));
    [reflexivity|].
  destruct (faults w !! dn) as [errno|]; [|reflexivity].
  now destruct (bool_decide (errno ≠ 17%Z)).
Qed.

(** Whatever its outcome, an export changes at most the file it
    opens. *)
Lemma user_tweets_to_csv_other_file self items sn conn w p :
  p <> output_file self sn ->
  files (after_export self items sn conn w) !! p = files w !! p.
Proof.
  intros Hp. unfold after_export. rewrite user_tweets_to_csv_steps.
  unfold mbind, M_bind.
  pose proof (ensure_dir_files (output_dir self) (log_export sn items w)) as He.
  destruct (ensure_dir (output_dir self) (log_export sn items w))
    as [[[]| |] w1]; cbn [snd] in *; try (now rewrite He).
  destruct (write_csv_cases (output_file self sn) (map tweet_row items) conn w1)
    as [[e ->] | ->]; cbn [snd]; [now rewrite He|].
  transitivity (files w1 !! p); [|now rewrite He].
  destruct conn; cbn; now rewrite lookup_insert_ne by (intros Heq; now apply Hp).
Qed.

(** X5: two different account identifiers without path separator are
    exported to two different files, both lying in the output directory
    itself; whatever its outcome, the export of one leaves the file of
    the other as it was. *)
Theorem distinct_accounts_distinct_files self sn sn' :
  has_sep sn = false -> has_sep sn' = false ->
  sn <> sn' ->
  output_file self sn <> output_file self sn'
  /\ dirname (output_file self sn) = output_dir self
  /\ dirname (output_file self sn') = output_dir self
  /\ forall items conn w,
       files (after_export self items sn' conn w) !! output_file self sn
       = files w !! output_file self sn.
Proof.
  intros H H' Hne.
  pose proof (output_file_distinct self sn sn' (has_sep_startswith _ H)
                (has_sep_startswith _ H') Hne) as Hd.
  split; [exact Hd|].
  split; [now apply dirname_output_file|].
  split; [now apply dirname_output_file|].
  intros items conn w. now apply user_tweets_to_csv_other_file.
Qed.

Lemma distinct_accounts_distinct_files_witness :
  output_file (corpus "out" (failing_api "")) "alice"
  <> output_file (corpus "out" (failing_api "")) "bob"
  /\ files (after_export (corpus "out" (failing_api "")) (tweets 2) "bob" None
              world_with_old_file)
     !! output_file (corpus "out" (failing_api "")) "alice"
     = Some "stale".
Proof.
  destruct (distinct_accounts_distinct_files (corpus "out" (failing_api ""))
              "alice" "bob") as (Hd & _ & _ & Hkeep).
  - reflexivity.
  - reflexivity.
  - discriminate.
  - split; [exact Hd|]. rewrite Hkeep. vm_compute. reflexivity.
Defined.

(** ** A batch in which every fetch returns *)

Lemma ensure_dir_dirs dn w :
  dirs w ⊆ dirs (snd (ensure_dir dn w))
  /\ dirs (snd (ensure_dir dn w)) ⊆ dirs w ∪ created_dirs dn.
Proof.
  unfold ensure_dir, try_except, try_except_else, makedirs.
  destruct (bool_decide (dn ∈ dirs w) || bool_decide (is_Some (files w !! dn)));
    [cbn; set_solver|].
  destruct (faults w !! dn) as [errno|]; [|cbn; set_solver].
  destruct (bool_decide (errno ≠ 17%Z)); cbn; set_solver.
Qed.

Lemma write_csv_dirs fp rows conn w :
  dirs (snd (write_csv fp rows conn w)) = dirs w.
Proof.
  destruct (write_csv_cases fp rows conn w) as [[e ->] | ->]; [reflexivity|].
  cbn [snd]. now destruct conn.
Qed.

Lemma user_tweets_to_csv_dirs self items sn conn w :
  dirs (snd (user_tweets_to_csv self items sn conn w))
  ⊆ dirs w ∪ created_dirs (output_dir self).
Proof.
  rewrite user_tweets_to_csv_steps. unfold mbind, M_bind.
  pose proof (ensure_dir_dirs (output_dir self) (log_export sn items w))
    as [_ Hsup].
  destruct (ensure_dir (output_dir self) (log_export sn items w))
    as [[[]| |] w1]; cbn [snd] in *; try exact Hsup.
  now rewrite write_csv_dirs.
Qed.

Lemma disk_eq w w' :
  disk w' = disk w ->
  dirs w' = dirs w /\ files w' = files w /\ faults w' = faults w.
Proof. unfold disk. intros [= -> -> ->]. now repeat split. Qed.

Lemma announce_disk conn sn w : disk (snd (announce conn sn w)) = disk w.
Proof. now destruct conn. Qed.

Lemma announce_exported conn sn w :
  exported (snd (announce conn sn w)) = exported w.
Proof. now destruct conn. Qed.

Section Batch.

Variables (fuel : nat) (self : TwitterCorpus) (conn : option Connection).

(** What the fetch of each account returns, in whatever world. *)
Variable result : string -> list Status.t.

Lemma batch_completes sns :
  (forall sn w, sn ∈ sns ->
     fst (get_user_tweets fuel self sn conn w) = Ret (result sn)) ->
  forall w,
    batch_ready self w sns ->
    exists w',
      get_multi_user_tweets fuel self sns conn w = (Ret tt, w')
      /\ exported w' = exported w ++ ((fun sn => (sn, result sn)) <$> sns)
      /\ (forall sn, sn ∈ sns ->
            files w' !! output_file self sn = Some (csv_file (result sn)))
      /\ (forall sn, has_sep sn = false -> sn ∉ sns ->
            files w' !! output_file self sn = files w !! output_file self sn)
      /\ faults w' = faults w
      /\ dirs w' ⊆ dirs w ∪ created_dirs (output_dir self).
Proof.
  induction sns as [|sn0 rest IH]; intros Hfetch w [Hdir Hall].
  - exists w. cbn. rewrite app_nil_r. repeat split; try done.
    + intros sn Hsn. now apply elem_of_nil in Hsn.
    + set_solver.
  - apply Forall_cons in Hall as [(Hsep & Hq & Hnd) Hall].
    cbn [get_multi_user_tweets].
    (* the opening message *)
    pose proof (announce_ret conn sn0 w) as Ha.
    destruct (announce conn sn0 w) as [oa w0] eqn:Ea. cbn in Ha. subst oa.
    pose proof (announce_disk conn sn0 w) as Hd0.
    pose proof (announce_exported conn sn0 w) as Hx0.
    rewrite Ea in Hd0, Hx0. cbn [snd] in Hd0, Hx0.
    rewrite (bind_ret _ _ _ _ _ Ea).
    (* the fetch *)
    pose proof (Hfetch sn0 w0 ltac:(left)) as Hf.
    pose proof (get_user_tweets_disk fuel self sn0 conn w0) as Hd1.
    pose proof (get_user_tweets_exported fuel self sn0 conn w0) as Hx1.
    destruct (get_user_tweets fuel self sn0 conn w0) as [o1 w1] eqn:E1.
    cbn [fst snd] in Hf, Hd1, Hx1. subst o1.
    rewrite (bind_ret _ _ _ _ _ E1).
    rewrite Hd0 in Hd1. apply disk_eq in Hd1 as (Hdirs1 & Hfiles1 & Hfaults1).
    (* the export *)
    assert (Hdir1 : dir_available w1 (output_dir self)).
    { unfold dir_available. now rewrite Hdirs1, Hfiles1, Hfaults1. }
    pose proof (output_file_relative self sn0 (has_sep_startswith _ Hsep))
      as Hfp.
    assert (Hwr1 : file_writable w1 (output_dir self) (output_file self sn0)).
    { split; [rewrite Hfp; now rewrite Hfaults1|]. split.
      - rewrite Hfp, Hdirs1, elem_of_union. intros [H | H]; [exact (Hnd H)|].
        exact (spec_output_file_not_created self sn0 H).
      - left. now apply dirname_output_file. }
    destruct (user_tweets_to_csv_ok self (result sn0) sn0 conn w1 Hdir1 Hwr1)
      as (Hrun & Hex & Hin & Hfiles & _ & Hfaults & _).
    pose proof (user_tweets_to_csv_dirs self (result sn0) sn0 conn w1) as Hsup.
    fold (after_export self (result sn0) sn0 conn w1) in Hsup.
    set (w2 := after_export self (result sn0) sn0 conn w1) in *.
    rewrite (bind_ret _ _ _ _ _ Hrun).
    (* the closing message *)
    set (w3 := snd (notify conn (Text ("Done with " +:+ sn0 +:+ "!")) w2)).
    assert (E3 : notify conn (Text ("Done with " +:+ sn0 +:+ "!")) w2
                 = (Ret tt, w3)) by (subst w3; now destruct conn).
    rewrite (bind_ret _ _ _ _ _ E3).
    pose proof (notify_disk conn (Text ("Done with " +:+ sn0 +:+ "!")) w2)
      as Hd3.
    fold w3 in Hd3. apply disk_eq in Hd3 as (Hdirs3 & Hfiles3 & Hfaults3).
    assert (Hx3 : exported w3 = exported w2)
      by (subst w3; apply notify_exported).
    (* the remaining accounts *)
    destruct (IH (fun sn w Hsn => Hfetch sn w ltac:(now right)) w3)
      as (w' & Hrest & Hexp & Hfs & Helse & Hfa & Hds).
    { split.
      - left. now rewrite Hdirs3.
      - apply Forall_forall. intros sn Hsn.
        rewrite Forall_forall in Hall.
        destruct (Hall sn Hsn) as (Hs & Hq' & Hnd').
        split; [exact Hs|]. split.
        + now rewrite Hfaults3, Hfaults, Hfaults1.
        + rewrite Hdirs3. intros H. apply Hsup in H.
          rewrite Hdirs1 in H. apply elem_of_union in H as [H | H];
            [exact (Hnd' H) | exact (spec_output_file_not_created self sn H)]. }
    exists w'. split; [exact Hrest|].
    split; [|split; [|split; [|split]]].
    + rewrite Hexp, Hx3, Hex, Hx1, Hx0. cbn [fmap list_fmap].
      now rewrite <- app_assoc.
    + intros sn Hsn.
      destruct (decide (sn ∈ rest)) as [Hin' | Hout]; [now apply Hfs|].
      apply elem_of_cons in Hsn as [-> | Hsn]; [|contradiction].
      rewrite (Helse sn0 Hsep Hout).
      rewrite Hfiles3, Hfiles. apply lookup_insert_eq.
    + intros sn Hs Hout.
      apply not_elem_of_cons in Hout as [Hne Hout].
      rewrite (Helse sn Hs Hout).
      rewrite Hfiles3, Hfiles, lookup_insert_ne, Hfiles1; [reflexivity|].
      apply output_file_distinct;
        [exact (has_sep_startswith _ Hsep) | exact (has_sep_startswith _ Hs)|].
      intros ->. now apply Hne.
    + now rewrite Hfa, Hfaults3, Hfaults, Hfaults1.
    + intros x Hx. apply Hds in Hx. rewrite Hdirs3 in Hx.
      apply elem_of_union in Hx as [Hx | Hx];
        [|apply elem_of_union; now right].
      apply Hsup in Hx. rewrite Hdirs1 in Hx. exact Hx.
Qed.

End Batch.

(** X6: end to end on a platform that serves timelines.  When every
    account of the batch has at least one item, ids decreasing, no
    identifier holds a path separator and the file system lets the
    exports through, the batch returns; the exporter has been called
    once per identifier, in order, with the account's whole timeline;
    afterwards the file of each account holds the header row
    [TWEET_ID,CREATED_AT,TEXT] followed by one row per item of its
    timeline, in order. *)
Theorem batch_exports_every_timeline timeline fuel self sns conn w :
  api self = timeline_api timeline ->
  Forall (fun sn => descending (timeline sn) /\ timeline sn <> []
                    /\ ceil_div (length (timeline sn)) 200 <= fuel) sns ->
  batch_ready self w sns ->
  exists w',
    get_multi_user_tweets fuel self sns conn w = (Ret tt, w')
    /\ exported w' = exported w ++ ((fun sn => (sn, timeline sn)) <$> sns)
    /\ (forall sn, sn ∈ sns ->
          files w' !! output_file self sn
          = Some (("TWEET_ID,CREATED_AT,TEXT" +:+ String CR (String LF ""))
                  +:+ String.concat ""
                        (map (fun t => csv_record [Status.id_str t;
                                                   Status.created_at t;
                                                   Status.text t])
                             (timeline sn)))).
Proof.
  intros Hapi Htl Hready.
  destruct (batch_completes fuel self conn timeline sns) with (w := w)
    as (w' & Hrun & Hexp & Hfs & _).
  - intros sn w0 Hsn. rewrite Forall_forall in Htl.
    destruct (Htl sn Hsn) as (Hs & Hne & Hfuel).
    destruct (get_user_tweets_timeline timeline self Hapi sn conn w0 fuel
                Hs Hne Hfuel) as (w1 & -> & _).
    reflexivity.
  - exact Hready.
  - exists w'. split; [exact Hrun|]. split; [exact Hexp|].
    intros sn Hsn. rewrite (Hfs sn Hsn).
    unfold csv_file, csv_rows. now rewrite map_map.
Qed.

Lemma batch_exports_every_timeline_witness :
  exists w',
    get_multi_user_tweets 2 (corpus "out" (timeline_api one_item_each))
      ["alice"; "bob"] (Some worker_conn) world0 = (Ret tt, w')
    /\ exported w'
       = exported world0
         ++ ((fun sn => (sn, one_item_each sn)) <$> ["alice"; "bob"])
    /\ (forall sn, sn ∈ ["alice"; "bob"] ->
          files w' !! output_file (corpus "out" (timeline_api one_item_each)) sn
          = Some (("TWEET_ID,CREATED_AT,TEXT" +:+ String CR (String LF ""))
                  +:+ String.concat ""
                        (map (fun t => csv_record [Status.id_str t;
                                                   Status.created_at t;
                                                   Status.text t])
                             (one_item_each sn)))).
Proof.
  apply (batch_exports_every_timeline one_item_each).
  - reflexivity.
  - repeat constructor; try by_compute; try discriminate; vm_compute; lia.
  - split.
    + right. split; vm_compute; reflexivity.
    + repeat constructor; try reflexivity; by_compute.
Defined.

(** X7: end to end on a platform that refuses every request (wrong
    credentials, no network).  When no identifier holds a path separator
    and the file system lets the exports through, the batch still
    returns: the exporter has been called once per identifier, in order,
    with the empty list, and the file of each account holds the line
    [TWEET_ID,CREATED_AT,TEXT] and nothing else. *)
Theorem batch_survives_refusals fuel self sns conn w :
  (forall log rq, exists reason, api self log rq = inr reason) ->
  batch_ready self w sns ->
  exists w',
    get_multi_user_tweets fuel self sns conn w = (Ret tt, w')
    /\ exported w' = exported w ++ ((fun sn => (sn, [])) <$> sns)
    /\ (forall sn, sn ∈ sns ->
          files w' !! output_file self sn
          = Some ("TWEET_ID,CREATED_AT,TEXT" +:+ String CR (String LF ""))).
Proof.
  intros Hapi Hready.
  destruct (batch_completes fuel self conn (fun _ => []) sns) with (w := w)
    as (w' & Hrun & Hexp & Hfs & _).
  - intros sn w0 _. destruct (Hapi (calls w0) (first_request sn)) as [r Hr].
    now rewrite (get_user_tweets_initial_failure _ _ _ _ _ _ Hr).
  - exact Hready.
  - exists w'. split; [exact Hrun|]. split; [exact Hexp|].
    intros sn Hsn. rewrite (Hfs sn Hsn). reflexivity.
Qed.

Lemma batch_survives_refusals_witness :
  exists w',
    get_multi_user_tweets 0 (corpus "out" (failing_api "Not authorized."))
      ["alice"; "bob"] None world0 = (Ret tt, w')
    /\ exported w' = exported world0 ++ ((fun sn => (sn, [])) <$> ["alice"; "bob"])
    /\ (forall sn, sn ∈ ["alice"; "bob"] ->
          files w' !! output_file (corpus "out" (failing_api "Not authorized.")) sn
          = Some ("TWEET_ID,CREATED_AT,TEXT" +:+ String CR (String LF ""))).
Proof.
  apply batch_survives_refusals.
  - intros log rq. exists "Not authorized.". reflexivity.
  - split.
    + right. split; vm_compute; reflexivity.
    + repeat constructor; try reflexivity; by_compute.
Defined.

(** X8: a refusal to create the output directory ends the batch in the
    export of the first account.  Its fetch has already run, the items
    it returned are written nowhere, and the remaining accounts are
    never requested. *)
Theorem directory_refusal_aborts_batch fuel self sn rest conn w items errno :
  fst (get_user_tweets fuel self sn conn (snd (announce conn sn w)))
  = Ret items ->
  output_dir self ∉ dirs w -> files w !! output_dir self = None ->
  faults w !! output_dir self = Some errno -> errno <> 17%Z ->
  exists w',
    get_multi_user_tweets fuel self (sn :: rest) conn w = (Raise TypeError, w')
    /\ files w' = files w
    /\ exported w' = exported w ++ [(sn, items)]
    /\ calls w'
       = calls (snd (get_user_tweets fuel self sn conn
                       (snd (announce conn sn w)))).
Proof.
  intros Hf Hd Hfl Hq Hne. cbn [get_multi_user_tweets].
  pose proof (announce_ret conn sn w) as Ha.
  pose proof (announce_disk conn sn w) as Hd0.
  pose proof (announce_exported conn sn w) as Hx0.
  destruct (announce conn sn w) as [oa w0] eqn:Ea. cbn [fst snd] in *. subst oa.
  rewrite (bind_ret _ _ _ _ _ Ea).
  pose proof (get_user_tweets_disk fuel self sn conn w0) as Hd1.
  pose proof (get_user_tweets_exported fuel self sn conn w0) as Hx1.
  destruct (get_user_tweets fuel self sn conn w0) as [o1 w1] eqn:E1.
  cbn [fst snd] in *. subst o1.
  rewrite (bind_ret _ _ _ _ _ E1).
  rewrite Hd0 in Hd1. apply disk_eq in Hd1 as (Hdirs1 & Hfiles1 & Hfaults1).
  exists (log_export sn items w1).
  split; [|split; [|split]].
  - apply bind_raise. rewrite user_tweets_to_csv_steps.
    apply bind_raise. apply (ensure_dir_fatal _ _ errno).
    + cbn. now rewrite Hdirs1.
    + cbn. now rewrite Hfiles1.
    + cbn. now rewrite Hfaults1.
    + exact Hne.
  - cbn. exact Hfiles1.
  - cbn. now rewrite Hx1, Hx0.
  - reflexivity.
Qed.

Lemma directory_refusal_aborts_batch_witness :
  exists w',
    get_multi_user_tweets 2 (corpus "out" (timeline_api one_item_each))
      ["alice"; "bob"] None world_denied = (Raise TypeError, w')
    /\ files w' = files world_denied
    /\ exported w' = exported world_denied ++ [("alice", [tweet 5])]
    /\ calls w'
       = calls (snd (get_user_tweets 2
                       (corpus "out" (timeline_api one_item_each)) "alice"
                       None (snd (announce None "alice" world_denied)))).
Proof.
  apply (directory_refusal_aborts_batch 2
           (corpus "out" (timeline_api one_item_each)) "alice" ["bob"] None
           world_denied [tweet 5] 13%Z).
  - vm_compute. reflexivity.
  - by_compute.
  - vm_compute. reflexivity.
  - vm_compute. reflexivity.
  - lia.
Defined.

Lemma batch_exports_prefix_run fuel self conn sns :
  forall w o w',
    get_multi_user_tweets fuel self sns conn w = (o, w') ->
    exists k,
      (exported w').*1 = (exported w).*1 ++ take k sns
      /\ (o = Ret tt -> length sns <= k).
Proof.
  induction sns as [|sn sns IH]; intros w o w' Hrun.
  - cbn in Hrun. injection Hrun as <- <-.
    exists 0. cbn. rewrite app_nil_r. split; [reflexivity | lia].
  - cbn [get_multi_user_tweets] in Hrun. unfold mbind, M_bind in Hrun.
    pose proof (announce_ret conn sn w) as Ha.
    pose proof (announce_exported conn sn w) as Hx0.
    destruct (announce conn sn w) as [oa w0]. cbn [fst snd] in *. subst oa.
    pose proof (get_user_tweets_exported fuel self sn conn w0) as Hx1.
    destruct (get_user_tweets fuel self sn conn w0) as [[items| |] w1];
      cbn [fst snd] in *.
    2,3: injection Hrun as <- <-; exists 0; cbn [take];
         rewrite app_nil_r, Hx1, Hx0; split; [reflexivity | discriminate].
    pose proof (user_tweets_to_csv_exported self items sn conn w1) as Hx2.
    destruct (user_tweets_to_csv self items sn conn w1) as [[[]| |] w2];
      cbn [fst snd] in *.
    2,3: injection Hrun as <- <-; exists 1; cbn [take];
         rewrite Hx2, Hx1, Hx0, fmap_app;
         split; [reflexivity | discriminate].
    pose proof (notify_exported conn (Text ("Done with " +:+ sn +:+ "!")) w2)
      as Hx3.
    destruct (notify conn (Text ("Done with " +:+ sn +:+ "!")) w2)
      as [[[]| |] w3] eqn:En; cbn [fst snd] in *;
      try (destruct conn; discriminate).
    destruct (IH w3 o w' Hrun) as (k & Hk & Hret).
    exists (S k). split.
    + rewrite Hk, Hx3, Hx2, Hx1, Hx0, fmap_app. cbn. now rewrite <- app_assoc.
    + intros H. specialize (Hret H). cbn. lia.
Qed.

(** X9: whatever the outcome of a batch, the exporter has been invoked
    for an initial segment of the identifiers, once each and in input
    order: no account is skipped and no account is exported twice or
    ahead of an earlier one.  When the batch returns, the segment is the
    whole list. *)
Theorem batch_exports_prefix fuel self conn sns w :
  exists k,
    (exported (snd (get_multi_user_tweets fuel self sns conn w))).*1
    = (exported w).*1 ++ take k sns
    /\ (fst (get_multi_user_tweets fuel self sns conn w) = Ret tt ->
        length sns <= k).
Proof.
  destruct (get_multi_user_tweets fuel self sns conn w) as [o w'] eqn:Hrun.
  exact (batch_exports_prefix_run fuel self conn sns w o w' Hrun).
Qed.

(** ** The identifiers read from the input text *)

Lemma lstrip_starts_clean s : starts_clean (lstrip s).
Proof.
  induction s as [|c s IH]; [exact I|].
  cbn [lstrip]. destruct (isspace c) eqn:E; [exact IH | exact E].
Qed.

Lemma lstrip_clean s : starts_clean s -> lstrip s = s.
Proof. destruct s as [|c s]; [reflexivity|]. cbn. now intros ->. Qed.

Lemma rstrip_starts_clean s : starts_clean s -> starts_clean (rstrip s).
Proof.
  destruct s as [|c s]; [intros _; exact I|]. cbn [starts_clean rstrip].
  intros Hc. destruct (rstrip s); [rewrite Hc|]; exact Hc.
Qed.

Lemma rstrip_cons c s :
  rstrip (String c s)
  = match rstrip s with
    | EmptyString => if isspace c then EmptyString else String c EmptyString
    | r => String c r
    end.
Proof. reflexivity. Qed.

Lemma rstrip_idem s : rstrip (rstrip s) = rstrip s.
Proof.
  induction s as [|c s IH]; [reflexivity|].
  rewrite rstrip_cons. destruct (rstrip s) as [|d r] eqn:E.
  - destruct (isspace c) eqn:Ec; [reflexivity|].
    rewrite rstrip_cons. cbn [rstrip]. now rewrite Ec.
  - rewrite rstrip_cons, IH. reflexivity.
Qed.

Lemma strip_idem s : strip (strip s) = strip s.
Proof.
  unfold strip.
  rewrite (lstrip_clean (rstrip (lstrip s))).
  - apply rstrip_idem.
  - apply rstrip_starts_clean, lstrip_starts_clean.
Qed.

Lemma lstrip_newline s : has_newline s = false -> has_newline (lstrip s) = false.
Proof.
  unfold has_newline. induction s as [|c s IH]; [reflexivity|].
  cbn [lstrip string_existsb]. intros H.
  apply orb_false_iff in H as [Hc Hs].
  destruct (isspace c); [now apply IH|].
  cbn [string_existsb]. now rewrite Hc, Hs.
Qed.

Lemma rstrip_newline s : has_newline s = false -> has_newline (rstrip s) = false.
Proof.
  unfold has_newline. induction s as [|c s IH]; [reflexivity|].
  rewrite rstrip_cons. cbn [string_existsb]. intros H.
  apply orb_false_iff in H as [Hc Hs]. specialize (IH Hs).
  destruct (rstrip s) as [|d r].
  - destruct (isspace c); [reflexivity|].
    cbn [string_existsb]. now rewrite Hc.
  - change (string_existsb (fun c0 => bool_decide (c0 = LF)) (String c (String d r)))
      with (bool_decide (c = LF)
            || string_existsb (fun c0 => bool_decide (c0 = LF)) (String d r)).
    now rewrite Hc, IH.
Qed.

Lemma split_newline_lines s l :
  l ∈ split_newline s -> has_newline l = false.
Proof.
  revert l. induction s as [|c s IH]; intros l Hl.
  - cbn in Hl. apply list_elem_of_singleton in Hl as ->. reflexivity.
  - cbn [split_newline] in Hl. case_bool_decide as Hc.
    + apply elem_of_cons in Hl as [-> | Hl]; [reflexivity | now apply IH].
    + pose proof (split_newline_nonempty s) as Hne.
      destruct (split_newline s) as [|l0 ls]; [congruence|].
      apply elem_of_cons in Hl as [-> | Hl].
      * unfold has_newline. cbn [string_existsb].
        rewrite (bool_decide_eq_false_2 _ Hc).
        apply (IH l0). now left.
      * apply IH. now right.
Qed.

Lemma read_screen_names_spec (text : string) :
  read_screen_names text = account_identifiers text.
Proof.
  unfold read_screen_names, account_identifiers.
  case_bool_decide as Ht.
  - now rewrite collect_screen_names.
  - assert (text = "") as -> by (destruct (decide (text = "")); tauto).
    reflexivity.
Qed.

(** X10: the identifiers read from any input text are its lines, each
    trimmed, blank ones dropped, in their order and with repetitions
    kept; each identifier read is non-empty, is unchanged by trimming it
    again (no whitespace around it) and contains no line break. *)
Theorem screen_names_are_trimmed_lines (text : string) :
  read_screen_names text
  = filter (fun l => l ≠ "") (strip <$> split_newline text)
  /\ forall sn, sn ∈ read_screen_names text ->
       sn <> "" /\ strip sn = sn /\ has_newline sn = false.
Proof.
  split; [apply read_screen_names_spec|].
  intros sn. rewrite read_screen_names_spec. unfold account_identifiers.
  rewrite list_elem_of_filter, list_elem_of_fmap.
  intros [Hne (l & -> & Hl)]. split; [exact Hne|].
  split; [apply strip_idem|].
  unfold strip. apply rstrip_newline, lstrip_newline.
  exact (split_newline_lines _ _ Hl).
Qed.

(** X11: with at least one identifier in the input text,
    [download_tweets] disables the button, creates the pipe, starts
    exactly one process whose arguments are the identifiers read and the
    worker's end of the pipe, on a corpus built from the trimmed
    settings, and registers one status check 250 ms later; the input
    text and the settings themselves are left as they are. *)
Theorem download_starts_one_worker
    (tweepy_API : string -> string -> string -> string -> API)
    (self : BirdbodyGUI) :
  account_identifiers (screen_names_text self) <> [] ->
  let g := download_tweets tweepy_API self in
  let proc :=
    {| target :=
         TwitterCorpus_init tweepy_API (strip (data_path_var self))
           (strip (consumer_key_var self)) (strip (consumer_secret_var self))
           (strip (access_key_var self)) (strip (access_secret_var self));
       args := (account_identifiers (screen_names_text self), worker_conn) |} in
  download_button g = disabled
  /\ main_conn g = Some main_conn_end
  /\ download_worker_proc g = Some proc
  /\ started g = started self ++ [proc]
  /\ timers g = timers self ++ [(250, check_download_status)]
  /\ screen_names_text g = screen_names_text self
  /\ (data_path_var g, consumer_key_var g, consumer_secret_var g,
      access_key_var g, access_secret_var g)
     = (data_path_var self, consumer_key_var self, consumer_secret_var self,
        access_key_var self, access_secret_var self).
Proof.
  intros H g proc. subst g proc. unfold download_tweets. cbv zeta.
  rewrite read_screen_names_widget.
  rewrite bool_decide_eq_true_2 by exact H.
  cbn. repeat split.
Qed.

Lemma download_starts_one_worker_witness :
  args <$> download_worker_proc
             (download_tweets (fun _ _ _ _ => failing_api "")
                (idle_gui two_names_text))
  = Some (["alice"; "bob"], worker_conn).
Proof.
  pose proof (download_starts_one_worker (fun _ _ _ _ => failing_api "")
                (idle_gui two_names_text)) as H.
  cbv zeta in H. destruct H as (_ & _ & -> & _).
  - vm_compute. discriminate.
  - vm_compute. reflexivity.
Defined.

(** ** The status check *)

Section StatusCheck.

Variable str_exn : exn -> string.

Lemma fire_idle t m : timers (gui m) = [] -> fire str_exn t m = Returned m.
Proof. intros H. unfold fire. now rewrite H. Qed.

Lemma fire_dead t m proc :
  polling m proc -> alive t = false ->
  exists m',
    fire str_exn t m = Returned m'
    /\ timers (gui m') = []
    /\ download_button (gui m') = normal
    /\ download_worker_proc (gui m') = Some proc
    /\ started (gui m') = started (gui m)
    /\ joined m' = joined m ++ [proc]
    /\ inbox m' = inbox m
    /\ status_var m' = stamped done_text (now_status t)
    /\ log_text m'
       = (log_text m +:+ stamped done_text (now_log t)) +:+ String LF "".
Proof.
  intros (Ht & Hp & Hb) Ha. unfold fire. rewrite Ht.
  unfold run_check_download_status. cbn [gui set_gui set_timers
    download_worker_proc]. rewrite Hp, Ha. cbn [negb].
  eexists. split; [reflexivity|]. cbn. now repeat split.
Qed.

Lemma fire_alive t m proc msg rest :
  polling m proc -> alive t = true -> inbox m = msg :: rest ->
  exists m',
    fire str_exn t m = Returned m'
    /\ polling m' proc
    /\ started (gui m') = started (gui m)
    /\ joined m' = joined m
    /\ inbox m' = rest
    /\ log_text m'
       = log_text m
         +:+ (if truthy msg
              then stamped (msg_text str_exn msg) (now_log t) +:+ String LF ""
              else "").
Proof.
  intros (Ht & Hp & Hb) Ha Hi. unfold fire. rewrite Ht.
  unfold run_check_download_status. cbn [gui set_gui set_timers
    download_worker_proc inbox]. rewrite Hp, Ha, Hi. cbn [negb].
  eexists. split; [reflexivity|].
  destruct (truthy msg); cbn.
  - repeat split; try assumption. now rewrite string_app_assoc.
  - repeat split; try assumption. now rewrite string_app_nil_r.
Qed.

Lemma fire_blocked t m proc :
  polling m proc -> alive t = true -> inbox m = [] ->
  exists m', fire str_exn t m = Blocked m'
             /\ log_text m' = log_text m /\ inbox m' = []
             /\ download_button (gui m') = disabled.
Proof.
  intros (Ht & Hp & Hb) Ha Hi. unfold fire. rewrite Ht.
  unfold run_check_download_status. cbn [gui set_gui set_timers
    download_worker_proc inbox]. rewrite Hp, Ha, Hi. cbn [negb].
  eexists. split; [reflexivity|]. cbn. now repeat split.
Qed.

Lemma fire_all_idle ts m :
  timers (gui m) = [] -> fire_all str_exn ts m = Returned m.
Proof.
  intros H. induction ts as [|t ts IH]; [reflexivity|].
  cbn [fire_all]. now rewrite (fire_idle t m H).
Qed.

Lemma fire_all_app ts1 ts2 m :
  fire_all str_exn (ts1 ++ ts2) m
  = match fire_all str_exn ts1 m with
    | Returned m' => fire_all str_exn ts2 m'
    | r => r
    end.
Proof.
  revert m. induction ts1 as [|t ts1 IH]; intros m; [reflexivity|].
  cbn [app fire_all]. destruct (fire str_exn t m); [apply IH | reflexivity..].
Qed.

(** While the worker is seen alive and messages are waiting, each check
    shows one message and registers the next check. *)
Lemma fire_all_alive ts :
  forall m proc,
    polling m proc -> Forall (fun t => alive t = true) ts ->
    length ts <= length (inbox m) ->
    exists m',
      fire_all str_exn ts m = Returned m'
      /\ polling m' proc
      /\ started (gui m') = started (gui m)
      /\ joined m' = joined m
      /\ inbox m' = drop (length ts) (inbox m)
      /\ log_text m' = log_text m +:+ log_lines str_exn ts (inbox m).
Proof.
  induction ts as [|t ts IH]; intros m proc Hpoll Hall Hlen.
  - exists m. cbn [fire_all length drop log_lines].
    rewrite string_app_nil_r.
    split; [reflexivity|]. split; [exact Hpoll|]. now repeat split.
  - apply Forall_cons in Hall as [Ha Hall].
    destruct (inbox m) as [|msg rest] eqn:Hi; [cbn in Hlen; lia|].
    destruct (fire_alive t m proc msg rest Hpoll Ha Hi)
      as (m1 & Hf & Hpoll1 & Hs1 & Hj1 & Hi1 & Hl1).
    destruct (IH m1 proc Hpoll1 Hall) as (m' & Hrun & Hp' & Hs' & Hj' & Hi' & Hl').
    { rewrite Hi1. cbn in Hlen. lia. }
    exists m'. cbn [fire_all]. rewrite Hf.
    split; [exact Hrun|]. split; [exact Hp'|].
    split; [now rewrite Hs', Hs1|]. split; [now rewrite Hj', Hj1|].
    split; [now rewrite Hi', Hi1|].
    rewrite Hl', Hl1, Hi1. cbn [log_lines]. now rewrite string_app_assoc.
Qed.

End StatusCheck.

(** X12: the cycle of the status check.  From the state a download
    leaves behind (one check pending, button disabled), a run of checks
    that see the worker alive, each with a message waiting, followed by
    a check that sees it dead, returns the interface to idle: the button
    is enabled, no check is pending, the process is joined; the log has
    gained one stamped line per non-empty message received, in order,
    and the closing line.  The messages still in the pipe at that point
    stay unread: whatever is observed later changes nothing. *)
Theorem status_check_returns_to_idle
    (str_exn : exn -> string) (ts : list Tick) (t_dead : Tick)
    (later : list Tick) (m : Monitor) (proc : Process) :
  polling m proc ->
  Forall (fun t => alive t = true) ts ->
  length ts <= length (inbox m) ->
  alive t_dead = false ->
  exists m',
    fire_all str_exn (ts ++ t_dead :: later) m = Returned m'
    /\ download_button (gui m') = normal
    /\ timers (gui m') = []
    /\ joined m' = joined m ++ [proc]
    /\ status_var m' = stamped done_text (now_status t_dead)
    /\ log_text m'
       = ((log_text m +:+ log_lines str_exn ts (inbox m))
          +:+ stamped done_text (now_log t_dead)) +:+ String LF ""
    /\ inbox m' = drop (length ts) (inbox m).
Proof.
  intros Hpoll Hall Hlen Hdead.
  destruct (fire_all_alive str_exn ts m proc Hpoll Hall Hlen)
    as (m1 & Hrun & Hpoll1 & _ & Hj1 & Hi1 & Hl1).
  destruct (fire_dead str_exn t_dead m1 proc Hpoll1 Hdead)
    as (m' & Hf & Ht & Hb & _ & _ & Hj & Hi & Hs & Hl).
  exists m'. split.
  - rewrite fire_all_app, Hrun. cbn [fire_all]. rewrite Hf.
    now apply fire_all_idle.
  - split; [exact Hb|]. split; [exact Ht|].
    split; [now rewrite Hj, Hj1|]. split; [exact Hs|].
    split; [now rewrite Hl, Hl1|]. now rewrite Hi, Hi1.
Qed.

Lemma status_check_returns_to_idle_witness :
  exists m',
    fire_all str_reason
      ([tick_at true "2020-01-01T10:00:00.250000"]
       ++ tick_at false "2020-01-01T10:00:01" :: [])
      (monitor0 (download_tweets (fun _ _ _ _ => failing_api "")
                   (idle_gui two_names_text)) three_msgs)
    = Returned m'
    /\ download_button (gui m') = normal
    /\ timers (gui m') = []
    /\ log_text m'
       = ("Getting tweets for alice ... (2020-01-01 10:00:00)"
          +:+ String LF "Done downloading tweets for all users. (2020-01-01 10:00:01)")
         +:+ String LF ""
    /\ inbox m' = [Exc (TweepError "Not authorized."); Text "Done with alice!"].
Proof.
  destruct (status_check_returns_to_idle str_reason
              [tick_at true "2020-01-01T10:00:00.250000"]
              (tick_at false "2020-01-01T10:00:01") []
              (monitor0 (download_tweets (fun _ _ _ _ => failing_api "")
                           (idle_gui two_names_text)) three_msgs)
              {| target := TwitterCorpus_init (fun _ _ _ _ => failing_api "")
                             "out" "" "" "" "";
                 args := (["alice"; "bob"], worker_conn) |})
    as (m' & Hrun & Hb & Ht & _ & _ & Hl & Hi).
  - repeat split; vm_compute; reflexivity.
  - repeat constructor.
  - vm_compute. lia.
  - reflexivity.
  - exists m'. split; [exact Hrun|]. split; [exact Hb|]. split; [exact Ht|].
    split; [rewrite Hl; vm_compute; reflexivity | rewrite Hi; reflexivity].
Defined.

Section StatusCheckMore.

Variable str_exn : exn -> string.

Lemma log_lines_take ts msgs :
  log_lines str_exn (take (length msgs) ts) msgs = log_lines str_exn ts msgs.
Proof.
  revert msgs. induction ts as [|t ts IH]; intros [|msg msgs]; try reflexivity.
  cbn [length take log_lines]. now rewrite IH.
Qed.

Lemma fire_wired t m :
  wired m ->
  match fire str_exn t m with
  | Returned m' => wired m'
  | Blocked m' => timers (gui m') = []
  | AttributeError => False
  end.
Proof.
  intros [H | (H & [proc Hp])]; unfold fire; rewrite H.
  - now left.
  - unfold run_check_download_status.
    cbn [gui set_gui set_timers download_worker_proc inbox]. rewrite Hp.
    destruct (alive t); cbn [negb].
    + destruct (inbox m) as [|msg rest]; [reflexivity|].
      right. destruct (truthy msg); cbn; eauto.
    + left. reflexivity.
Qed.

Lemma fire_all_wired ts :
  forall m,
    wired m ->
    match fire_all str_exn ts m with
    | Returned m' => wired m'
    | Blocked m' => timers (gui m') = []
    | AttributeError => False
    end.
Proof.
  induction ts as [|t ts IH]; intros m Hw; [exact Hw|].
  cbn [fire_all]. pose proof (fire_wired t m Hw) as Hf.
  destruct (fire str_exn t m) as [m1| |]; [now apply IH | exact Hf..].
Qed.

End StatusCheckMore.

(** X13: when the worker is seen alive more often than messages are
    waiting, the check that finds the pipe empty does not return: it
    waits in [recv()], inside the event loop's callback, with the button
    still disabled; every message that was waiting has been shown
    before. *)
Theorem status_check_waits_for_message
    (str_exn : exn -> string) (ts : list Tick) (m : Monitor) (proc : Process) :
  polling m proc ->
  Forall (fun t => alive t = true) ts ->
  length (inbox m) < length ts ->
  exists m',
    fire_all str_exn ts m = Blocked m'
    /\ inbox m' = []
    /\ download_button (gui m') = disabled
    /\ log_text m' = log_text m +:+ log_lines str_exn ts (inbox m).
Proof.
  intros Hpoll Hall Hlen.
  set (n := length (inbox m)).
  assert (Hsplit : ts = take n ts ++ drop n ts) by (now rewrite take_drop).
  destruct (drop n ts) as [|t rest] eqn:Hd.
  { apply (f_equal length) in Hd. rewrite length_drop in Hd. cbn in Hd. lia. }
  destruct (fire_all_alive str_exn (take n ts) m proc Hpoll)
    as (m1 & Hrun & Hpoll1 & _ & _ & Hi1 & Hl1).
  { apply Forall_take. exact Hall. }
  { rewrite length_take. lia. }
  rewrite length_take, Nat.min_l in Hi1 by lia.
  assert (Hempty : inbox m1 = []).
  { rewrite Hi1. apply drop_all. }
  assert (Ha : alive t = true).
  { rewrite Forall_forall in Hall. apply Hall. rewrite Hsplit.
    apply elem_of_app. right. now left. }
  destruct (fire_blocked str_exn t m1 proc Hpoll1 Ha Hempty)
    as (m' & Hf & Hl & Hi & Hb).
  exists m'. split.
  - rewrite Hsplit, fire_all_app, Hrun. cbn [fire_all]. now rewrite Hf.
  - split; [exact Hi|]. split; [exact Hb|].
    rewrite Hl, Hl1. subst n. now rewrite log_lines_take.
Qed.

Lemma status_check_waits_for_message_witness :
  exists m',
    fire_all str_reason [tick_at true "2020-01-01T10:00:00"]
      (monitor0 (download_tweets (fun _ _ _ _ => failing_api "")
                   (idle_gui two_names_text)) [])
    = Blocked m'
    /\ inbox m' = []
    /\ download_button (gui m') = disabled
    /\ log_text m' = "" +:+ log_lines str_reason
                              [tick_at true "2020-01-01T10:00:00"] [].
Proof.
  apply (status_check_waits_for_message str_reason
           [tick_at true "2020-01-01T10:00:00"]
           (monitor0 (download_tweets (fun _ _ _ _ => failing_api "")
                        (idle_gui two_names_text)) [])
           {| target := TwitterCorpus_init (fun _ _ _ _ => failing_api "")
                          "out" "" "" "" "";
              args := (["alice"; "bob"], worker_conn) |}).
  - repeat split; vm_compute; reflexivity.
  - repeat constructor.
  - vm_compute. lia.
Defined.

(** X14: started from an interface with no check pending, whatever the
    input text, the messages and the observations, the status check
    never finds the process attribute missing, and never is more than
    one check pending. *)
Theorem status_check_never_unwired
    (tweepy_API : string -> string -> string -> string -> API)
    (str_exn : exn -> string) (self : BirdbodyGUI) (msgs : list Msg)
    (ts : list Tick) :
  timers self = [] ->
  match fire_all str_exn ts (monitor0 (download_tweets tweepy_API self) msgs)
  with
  | Returned m' => length (timers (gui m')) <= 1
  | Blocked m' => timers (gui m') = []
  | AttributeError => False
  end.
Proof.
  intros Ht.
  assert (Hw : wired (monitor0 (download_tweets tweepy_API self) msgs)).
  { unfold wired, download_tweets. cbv zeta.
    case_bool_decide; cbn [monitor0 gui timers download_worker_proc].
    - right. rewrite Ht. split; [reflexivity | eauto].
    - now left. }
  pose proof (fire_all_wired str_exn ts _ Hw) as H.
  destruct (fire_all str_exn ts _) as [m'| |]; [|exact H..].
  destruct H as [-> | [-> _]]; cbn; lia.
Qed.

Lemma status_check_never_unwired_witness :
  match fire_all str_reason
          [tick_at true "a"; tick_at true "b"; tick_at false "c";
           tick_at true "d"]
          (monitor0 (download_tweets (fun _ _ _ _ => failing_api "")
                       (idle_gui two_names_text)) three_msgs)
  with
  | Returned m' => length (timers (gui m')) <= 1
  | Blocked m' => timers (gui m') = []
  | AttributeError => False
  end.
Proof.
  apply status_check_never_unwired. reflexivity.
Defined.

(** ** The time stamp *)

Lemma substring_0_app (a b : string) :
  String.substring 0 (String.length a) (a +:+ b) = a.
Proof.
  induction a as [|c a IH].
  - cbn. now destruct b.
  - rewrite string_app_cons. cbn. now rewrite IH.
Qed.

Lemma replace_T_app (a b : string) :
  replace_T (a +:+ b) = replace_T a +:+ replace_T b.
Proof.
  induction a as [|c a IH]; [reflexivity|].
  rewrite string_app_cons. cbn [replace_T]. rewrite IH.
  now rewrite string_app_cons.
Qed.

Lemma replace_T_without (s : string) : has_T s = false -> replace_T s = s.
Proof.
  unfold has_T. induction s as [|c s IH]; [reflexivity|].
  cbn [string_existsb replace_T]. intros H.
  apply orb_false_iff in H as [Hc Hs]. now rewrite Hc, IH.
Qed.

Lemma replace_T_clean (s : string) : has_T (replace_T s) = false.
Proof.
  unfold has_T. induction s as [|c s IH]; [reflexivity|].
  cbn [string_existsb replace_T]. rewrite IH.
  destruct (bool_decide (c = "T"%char)) eqn:E; [reflexivity|].
  now rewrite E.
Qed.

Lemma replace_T_length (s : string) :
  String.length (replace_T s) = String.length s.
Proof. induction s as [|c s IH]; [reflexivity|]. cbn. now rewrite IH. Qed.

Lemma substring_0_length (n : nat) (s : string) :
  String.length (String.substring 0 n s) = min n (String.length s).
Proof.
  revert s. induction n as [|n IH]; intros [|c s]; try reflexivity.
  cbn. now rewrite IH.
Qed.

(** X15: the time stamp put on status and log lines never contains the
    letter T and has at most 19 characters; for a clock reading in ISO
    form, a date of 10 characters, the letter T, a time of 8 characters
    and possibly a fraction, it is the date, a space and the time, the
    fraction being dropped. *)
Theorem timestamp_format :
  (forall iso,
     has_T (timestamp iso) = false
     /\ String.length (timestamp iso) = min 19 (String.length iso))
  /\ (forall date time fraction,
        String.length date = 10 -> String.length time = 8 ->
        has_T date = false -> has_T time = false ->
        timestamp (date +:+ String "T" (time +:+ fraction))
        = date +:+ String " " time).
Proof.
  split.
  - intros iso. unfold timestamp. split; [apply replace_T_clean|].
    now rewrite replace_T_length, substring_0_length.
  - intros date time fraction Hd Ht Hnd Hnt. unfold timestamp.
    replace (date +:+ String "T" (time +:+ fraction))
      with ((date +:+ String "T" time) +:+ fraction).
    2:{ rewrite string_app_assoc. now rewrite string_app_cons. }
    replace 19 with (String.length (date +:+ String "T" time)).
    2:{ rewrite string_length_app. cbn. lia. }
    rewrite substring_0_app, replace_T_app.
    rewrite (replace_T_without date Hnd). cbn [replace_T].
    rewrite (replace_T_without time Hnt).
    now rewrite bool_decide_eq_true_2.
Qed.

Lemma timestamp_format_witness :
  timestamp ("2020-01-01" +:+ String "T" ("10:00:00" +:+ ".250000"))
  = "2020-01-01" +:+ String " " "10:00:00".
Proof.
  apply (proj2 timestamp_format); reflexivity.
Defined.

(** ** What the worker sends *)

Lemma string_app_nonempty_r (a b : string) : b <> "" -> a +:+ b <> "".
Proof.
  intros Hb H. apply (f_equal String.length) in H.
  rewrite string_length_app in H. destruct b; [congruence | cbn in H; lia].
Qed.

Lemma notify_pipe_good conn m w :
  worker_msg m -> Forall worker_msg (pipe w) ->
  Forall worker_msg (pipe (snd (notify conn m w))).
Proof.
  intros Hm Hw. destruct conn; cbn; [|exact Hw].
  apply Forall_app. split; [exact Hw | now constructor].
Qed.

Lemma progress_msg_good n sn : worker_msg (progress_msg n sn).
Proof. cbn. apply string_app_nonempty_r. discriminate. Qed.

Lemma loop_body_pipe_good self sn conn st w :
  Forall worker_msg (pipe w) ->
  Forall worker_msg (pipe (snd (loop_body self sn conn st w))).
Proof.
  intros Hw.
  destruct (api self (calls w) (next_request sn (oldest st)))
    as [page | reason] eqn:Hp.
  - destruct (last (user_tweets st ++ page)) as [t|] eqn:Hl.
    + rewrite (loop_body_page _ _ _ _ _ _ _ Hp Hl). cbn [snd].
      apply notify_pipe_good; [apply progress_msg_good | exact Hw].
    + now rewrite (loop_body_index_error _ _ _ _ _ _ Hp Hl).
  - now rewrite (loop_body_error _ _ _ _ _ _ Hp).
Qed.

Lemma while_loop_pipe_good self sn conn fuel :
  forall st w,
    Forall worker_msg (pipe w) ->
    Forall worker_msg (pipe (snd (while_loop fuel self sn conn st w))).
Proof.
  induction fuel as [|fuel IH]; intros st w Hw.
  - cbn [while_loop]. now destruct (0 <? length (new_tweets st))%nat.
  - destruct (decide (new_tweets st = [])) as [Hnil | Hne].
    { now rewrite (while_loop_exit _ _ _ _ _ _ Hnil). }
    rewrite (while_loop_enter _ _ _ _ _ _ Hne).
    pose proof (loop_body_pipe_good self sn conn st w Hw) as Hb.
    unfold mbind, M_bind.
    destruct (loop_body self sn conn st w) as [[st'| |] w1]; cbn [snd] in *;
      [|exact Hb|exact Hb].
    now apply IH.
Qed.

Lemma get_user_tweets_pipe_good fuel self sn conn w :
  Forall worker_msg (pipe w) ->
  Forall worker_msg (pipe (snd (get_user_tweets fuel self sn conn w))).
Proof.
  intros Hw.
  destruct (api self (calls w) (first_request sn)) as [page | reason] eqn:Hp.
  - rewrite (get_user_tweets_first_page _ _ _ _ _ _ Hp).
    unfold else_clause, index_last. cbn [app].
    destruct (last page) as [t|]; [|exact Hw].
    unfold mbind, M_bind, mret, M_ret.
    match goal with
    | |- context [while_loop fuel self sn conn ?s ?v] =>
        pose proof (while_loop_pipe_good self sn conn fuel s v Hw) as Hl;
        destruct (while_loop fuel self sn conn s v) as [[st'| |] w1]
    end; exact Hl.
  - rewrite (get_user_tweets_initial_failure _ _ _ _ _ _ Hp).
    unfold after_failed_fetch. cbn [snd].
    apply notify_pipe_good; [now exists reason | exact Hw].
Qed.

Lemma ensure_dir_pipe dn w : pipe (snd (ensure_dir dn w)) = pipe w.
Proof.
  unfold ensure_dir, try_except, try_except_else, makedirs.
  destruct (bool_decide (dn ∈ dirs w) || bool_decide (is_Some (files w !! dn)));
    [reflexivity|].
  destruct (faults w !! dn) as [errno|]; [|reflexivity].
  now destruct (bool_decide (errno ≠ 17%Z)).
Qed.

Lemma user_tweets_to_csv_pipe_good self items sn conn w :
  Forall worker_msg (pipe w) ->
  Forall worker_msg (pipe (snd (user_tweets_to_csv self items sn conn w))).
Proof.
  intros Hw. rewrite user_tweets_to_csv_steps. unfold mbind, M_bind.
  pose proof (ensure_dir_pipe (output_dir self) (log_export sn items w)) as He.
  destruct (ensure_dir (output_dir self) (log_export sn items w))
    as [[[]| |] w1]; cbn [snd] in *; try (rewrite He; exact Hw).
  destruct (write_csv_cases (output_file self sn) (map tweet_row items) conn w1)
    as [[e ->] | ->]; cbn [snd]; [rewrite He; exact Hw|].
  apply notify_pipe_good.
  - cbn. apply string_app_nonempty_r, string_app_nonempty_r. discriminate.
  - cbn. rewrite He. exact Hw.
Qed.

(** X16: everything the worker puts in the pipe, in a batch of any
    outcome, is a non-empty text or a [TweepError]; hence every message
    the status check receives is true under [if msg] and is shown. *)
Theorem worker_sends_showable_messages fuel self conn sns :
  forall w,
    Forall worker_msg (pipe w) ->
    Forall (fun m => worker_msg m /\ truthy m = true)
      (pipe (snd (get_multi_user_tweets fuel self sns conn w))).
Proof.
  assert (Hshow : forall l, Forall worker_msg l ->
                    Forall (fun m => worker_msg m /\ truthy m = true) l).
  { intros l Hl. apply (Forall_impl _ _ _ Hl).
    intros [s|e] Hm; (split; [exact Hm|]).
    - cbn in *. now apply bool_decide_eq_true_2.
    - reflexivity. }
  intros w Hw. apply Hshow. revert w Hw.
  induction sns as [|sn sns IH]; intros w Hw; [exact Hw|].
  cbn [get_multi_user_tweets]. unfold mbind, M_bind.
  assert (H0 : Forall worker_msg (pipe (snd (announce conn sn w)))).
  { destruct conn; cbn; [|exact Hw].
    apply Forall_app. split; [exact Hw|]. constructor; [|constructor].
    cbn. apply string_app_nonempty_r, string_app_nonempty_r. discriminate. }
  pose proof (announce_ret conn sn w) as Ha.
  destruct (announce conn sn w) as [oa w0]. cbn [fst snd] in *. subst oa.
  pose proof (get_user_tweets_pipe_good fuel self sn conn w0 H0) as H1.
  destruct (get_user_tweets fuel self sn conn w0) as [[items| |] w1];
    cbn [snd] in *; try exact H1.
  pose proof (user_tweets_to_csv_pipe_good self items sn conn w1 H1) as H2.
  destruct (user_tweets_to_csv self items sn conn w1) as [[[]| |] w2];
    cbn [snd] in *; try exact H2.
  assert (H3 : Forall worker_msg
                 (pipe (snd (notify conn (Text ("Done with " +:+ sn +:+ "!"))
                               w2)))).
  { apply notify_pipe_good; [|exact H2].
    cbn. apply string_app_nonempty_r, string_app_nonempty_r. discriminate. }
  destruct (notify conn (Text ("Done with " +:+ sn +:+ "!")) w2)
    as [[[]| |] w3] eqn:En; cbn [snd] in *;
    try (destruct conn; discriminate).
  now apply IH.
Qed.

Lemma worker_sends_showable_messages_witness :
  Forall (fun m => worker_msg m /\ truthy m = true)
    (pipe (snd (get_multi_user_tweets 2
                  (corpus "out" (timeline_api alice_empty_bob_five))
                  ["bob"; "alice"] (Some worker_conn) world0))).
Proof.
  apply worker_sends_showable_messages. constructor.
Defined.

(** ** No item is fetched twice *)




(** ** The loop ends *)

Lemma while_loop_terminates self sn conn :
  honouring (api self) ->
  forall fuel st w,
    Z.to_nat (oldest st + 1) < fuel ->
    fst (while_loop fuel self sn conn st w) <> OutOfFuel.
Proof.
  intros Hon. induction fuel as [|fuel IH]; intros st w Hfuel; [lia|].
  destruct (decide (new_tweets st = [])) as [Hnil | Hne].
  { now rewrite (while_loop_exit _ _ _ _ _ _ Hnil). }
  rewrite (while_loop_enter _ _ _ _ _ _ Hne).
  destruct (api self (calls w) (next_request sn (oldest st)))
    as [page | reason] eqn:Hp.
  - destruct (last (user_tweets st ++ page)) as [t'|] eqn:Hl.
    + rewrite (bind_ret _ _ _ _ _ (loop_body_page _ _ _ _ _ _ _ Hp Hl)).
      destruct (decide (page = [])) as [-> | Hpage].
      { now rewrite while_loop_exit. }
      apply IH. cbn [oldest].
      assert (Hin : t' ∈ page).
      { rewrite last_app in Hl. destruct (last page) as [t|] eqn:Hlp.
        - injection Hl as <-. exact (last_Some_elem_of _ _ Hlp).
        - apply last_None in Hlp. contradiction. }
      destruct (Hon _ _ _ Hp) as [Hpos Hle].
      specialize (Hle (oldest st) eq_refl).
      rewrite Forall_forall in Hpos, Hle.
      specialize (Hpos t' Hin). specialize (Hle t' Hin). cbn in Hpos, Hle.
      lia.
    + now rewrite (bind_raise _ _ _ _ _
                     (loop_body_index_error _ _ _ _ _ _ Hp Hl)).
  - now rewrite (bind_raise _ _ _ _ _ (loop_body_error _ _ _ _ _ _ Hp)).
Qed.

(** X18: on a platform that honours the cursor and serves no negative
    id, the fetch ends, whatever the pages hold otherwise: from some
    amount of fuel on, its outcome is a result or an exception, never
    the exhaustion of the fuel. *)
Theorem fetch_terminates self sn conn w :
  honouring (api self) ->
  exists fuel0, forall fuel,
    fuel0 <= fuel ->
    fst (get_user_tweets fuel self sn conn w) <> OutOfFuel.
Proof.
  intros Hon.
  destruct (api self (calls w) (first_request sn)) as [page | reason] eqn:Hp.
  - destruct (last page) as [t|] eqn:Hl.
    + exists (S (Z.to_nat (Status.id t))). intros fuel Hfuel.
      rewrite (get_user_tweets_first_page _ _ _ _ _ _ Hp).
      unfold else_clause, index_last. cbn [app]. rewrite Hl.
      unfold mbind, M_bind, mret, M_ret.
      match goal with
      | |- context [while_loop fuel self sn conn ?s ?v] =>
          pose proof (while_loop_terminates self sn conn Hon fuel s v) as Ht;
          destruct (while_loop fuel self sn conn s v) as [[st'| |] w1]
      end; try discriminate.
      cbn [fst oldest] in Ht. exfalso. apply Ht; [|reflexivity].
      replace (Status.id t - 1 + 1)%Z with (Status.id t) by lia. lia.
    + exists 0. intros fuel _.
      rewrite (get_user_tweets_first_page _ _ _ _ _ _ Hp).
      unfold else_clause, index_last. cbn [app]. now rewrite Hl.
  - exists 0. intros fuel _.
    now rewrite (get_user_tweets_initial_failure _ _ _ _ _ _ Hp).
Qed.

Lemma Forall_list_filter {A} (P : A -> Prop) (p : A -> bool) (l : list A) :
  Forall P l -> Forall P (List.filter p l).
Proof.
  induction 1 as [|x l Hx Hl IH]; [constructor|].
  cbn. destruct (p x); [now constructor | exact IH].
Qed.

Lemma Forall_list_filter_true {A} (p : A -> bool) (l : list A) :
  Forall (fun x => p x = true) (List.filter p l).
Proof.
  induction l as [|x l IH]; [constructor|].
  cbn. destruct (p x) eqn:E; [now constructor | exact IH].
Qed.

Lemma timeline_api_honouring timeline :
  (forall sn, Forall (fun t => (0 <= Status.id t)%Z) (timeline sn)) ->
  honouring (timeline_api timeline).
Proof.
  intros Hpos log rq page [= <-]. split.
  - apply Forall_take, Forall_list_filter, Hpos.
  - intros m Hm. rewrite Hm. apply Forall_take.
    eapply Forall_impl; [apply Forall_list_filter_true|].
    intros t Ht. cbn in Ht. now apply Z.leb_le.
Qed.

Lemma fetch_terminates_witness :
  exists fuel0, forall fuel,
    fuel0 <= fuel ->
    fst (get_user_tweets fuel (corpus "out" (timeline_api one_item_each))
           "alice" None world0) <> OutOfFuel.
Proof.
  apply fetch_terminates. apply timeline_api_honouring.
  intros sn. unfold one_item_each.
  destruct (bool_decide (sn = "alice")); repeat constructor; cbn; lia.
Defined.

(** ** Which requests a batch makes *)

Lemma chained_requests sn tr :
  forall cursor,
    chained sn cursor tr ->
    Forall (fun c : Call => rq_screen_name c.1 = sn /\ rq_count c.1 = 200%Z) tr.
Proof.
  induction tr as [|[rq resp] tr IH]; intros cursor Hch; [constructor|].
  destruct Hch as [-> Hch]. constructor; [now split|].
  destruct resp as [page | reason].
  - destruct (last page) as [t|]; [exact (IH _ Hch) | subst tr; constructor].
  - subst tr. constructor.
Qed.

Lemma get_user_tweets_calls fuel self sn conn w :
  calls (snd (get_user_tweets fuel self sn conn w))
  = calls w ++ fetch_calls fuel self sn conn w.
Proof.
  unfold fetch_calls.
  destruct (api self (calls w) (first_request sn)) as [page | reason] eqn:Hp.
  - rewrite (get_user_tweets_first_page _ _ _ _ _ _ Hp).
    unfold else_clause, index_last. cbn [app].
    destruct (last page) as [t|] eqn:Hl.
    + destruct (while_loop_chained self sn conn fuel
                  {| new_tweets := page; user_tweets := page;
                     oldest := (Status.id t - 1)%Z |}
                  (record_call (first_request sn, inl page) w))
        as (tr & Hc & _).
      unfold mbind, M_bind, mret, M_ret in *.
      destruct (while_loop fuel self sn conn _ _) as [[st'| |] w'];
        cbn [snd] in *; rewrite Hc; unfold record_call; cbn [calls set_calls];
        now rewrite <- app_assoc, drop_app_length.
    + unfold mbind, M_bind, raise. cbn [snd record_call calls set_calls].
      now rewrite drop_app_length.
  - rewrite (get_user_tweets_initial_failure _ _ _ _ _ _ Hp).
    unfold after_failed_fetch. cbn [snd]. rewrite notify_calls.
    unfold record_call. cbn [snd calls set_calls].
    now rewrite drop_app_length.
Qed.

Lemma user_tweets_to_csv_calls self items sn conn w :
  calls (snd (user_tweets_to_csv self items sn conn w)) = calls w.
Proof.
  rewrite user_tweets_to_csv_steps. unfold mbind, M_bind.
  pose proof (ensure_dir_calls (output_dir self) (log_export sn items w)) as Hc.
  destruct (ensure_dir (output_dir self) (log_export sn items w))
    as [[[]| |] w1]; cbn [snd] in *; try exact Hc.
  now rewrite write_csv_calls.
Qed.

Lemma batch_calls_run fuel self conn sns :
  forall w o w',
    get_multi_user_tweets fuel self sns conn w = (o, w') ->
    exists tr,
      calls w' = calls w ++ tr
      /\ Forall (fun c : Call => rq_screen_name c.1 ∈ sns
                                 /\ rq_count c.1 = 200%Z) tr.
Proof.
  induction sns as [|sn sns IH]; intros w o w' Hrun.
  - cbn in Hrun. injection Hrun as <- <-. exists []. rewrite app_nil_r.
    now split.
  - cbn [get_multi_user_tweets] in Hrun. unfold mbind, M_bind in Hrun.
    pose proof (announce_ret conn sn w) as Ha.
    pose proof (announce_calls conn sn w) as Hc0.
    destruct (announce conn sn w) as [oa w0]. cbn [fst snd] in *. subst oa.
    pose proof (get_user_tweets_calls fuel self sn conn w0) as Hc1.
    pose proof (chained_requests sn _ None
                  (get_user_tweets_chained fuel self sn conn w0)) as Hreq.
    set (tr1 := fetch_calls fuel self sn conn w0) in *.
    assert (Hreq' : Forall (fun c : Call => rq_screen_name c.1 ∈ sn :: sns
                                            /\ rq_count c.1 = 200%Z) tr1).
    { eapply Forall_impl; [exact Hreq|]. intros c [-> Hn]. split; [left | exact Hn]. }
    destruct (get_user_tweets fuel self sn conn w0) as [[items| |] w1];
      cbn [fst snd] in *.
    2,3: injection Hrun as <- <-; exists tr1; now rewrite Hc1, Hc0.
    pose proof (user_tweets_to_csv_calls self items sn conn w1) as Hc2.
    destruct (user_tweets_to_csv self items sn conn w1) as [[[]| |] w2];
      cbn [fst snd] in *.
    2,3: injection Hrun as <- <-; exists tr1; now rewrite Hc2, Hc1, Hc0.
    pose proof (notify_calls conn (Text ("Done with " +:+ sn +:+ "!")) w2)
      as Hc3.
    destruct (notify conn (Text ("Done with " +:+ sn +:+ "!")) w2)
      as [[[]| |] w3] eqn:En; cbn [fst snd] in *;
      try (destruct conn; discriminate).
    destruct (IH w3 o w' Hrun) as (tr & Hc & Hall).
    exists (tr1 ++ tr). split.
    + rewrite Hc, Hc3, Hc2, Hc1, Hc0. now rewrite <- app_assoc.
    + apply Forall_app. split; [exact Hreq'|].
      eapply Forall_impl; [exact Hall|]. intros c [Hin Hn].
      split; [now right | exact Hn].
Qed.

(** X19: whatever the outcome of a batch, every request it has made to
    the platform names an account of the input list and asks for 200
    items; the earlier history of the platform is left in place. *)
Theorem batch_requests_listed_accounts fuel self conn sns w :
  exists tr,
    calls (snd (get_multi_user_tweets fuel self sns conn w)) = calls w ++ tr
    /\ Forall (fun c : Call => rq_screen_name c.1 ∈ sns
                               /\ rq_count c.1 = 200%Z) tr.
Proof.
  destruct (get_multi_user_tweets fuel self sns conn w) as [o w'] eqn:Hrun.
  exact (batch_calls_run fuel self conn sns w o w' Hrun).
Qed.

(** ** Choosing the data directory *)

(** X20: [browse_data_path].  A cancelled dialog changes nothing.  A
    chosen directory is put in the data path field first and created
    afterwards: when it exists the file system is left as it is; when it
    is missing and can be created it exists afterwards; when its
    creation is refused with an errno other than 17 the call raises, and
    the field already shows the directory that does not exist. *)
Theorem browse_sets_field_then_creates (p : string) (self : BirdbodyGUI)
    (w : World) :
  browse_data_path "" self w = (self, (Ret tt, w))
  /\ (p <> "" ->
      data_path_var (fst (browse_data_path p self w)) = p
      /\ (p ∈ dirs w ->
          snd (browse_data_path p self w) = (Ret tt, w))
      /\ (p ∉ dirs w -> files w !! p = None -> faults w !! p = None ->
          fst (snd (browse_data_path p self w)) = Ret tt
          /\ p ∈ dirs (snd (snd (browse_data_path p self w))))
      /\ (forall errno,
            p ∉ dirs w -> files w !! p = None ->
            faults w !! p = Some errno -> errno <> 17%Z ->
            snd (browse_data_path p self w) = (Raise TypeError, w))).
Proof.
  split; [reflexivity|].
  intros Hp. unfold browse_data_path.
  rewrite (bool_decide_eq_true_2 _ Hp). cbn [fst snd].
  split; [reflexivity|]. split; [|split].
  - apply ensure_dir_exists.
  - intros Hd Hf Hq.
    destruct (ensure_dir_available p w) as (w' & -> & Hin & _).
    { right. now split. }
    now split.
  - intros errno Hd Hf Hq Hne. now apply (ensure_dir_fatal _ _ errno).
Qed.

Lemma browse_sets_field_then_creates_witness :
  data_path_var (fst (browse_data_path "out/tweets" (idle_gui "") world_denied))
  = "out/tweets"
  /\ snd (browse_data_path "out/tweets" (idle_gui "") world_denied)
     = (Raise TypeError, world_denied).
Proof.
  destruct (proj2 (browse_sets_field_then_creates "out/tweets" (idle_gui "")
                     world_denied)) as (Hv & _ & _ & Hfatal).
  - discriminate.
  - split; [exact Hv|]. apply (Hfatal 13%Z).
    + by_compute.
    + vm_compute. reflexivity.
    + vm_compute. reflexivity.
    + lia.
Defined.
